(** * Regressors: polynomial model matrix, scaler, solvers and dispatcher

    A shallow embedding of [src/regressors.py].

    Numbers are exact rationals ([Qc]): a NumPy float array is read as an
    array of rationals, so the arithmetic identities below are exact where
    floating point rounds.  NumPy divides by zero without an exception and
    stores a non-finite float; the rationals have none, so every statement
    about a quotient assumes a divisor that is not zero (for [center]: no
    constant column).  One-dimensional arrays are lists; a two-dimensional
    array is the list of its rows, so an array without rows does not
    record its number of columns, and the statements about products with
    such an array say so.  Python exceptions are values of [exn]; a
    computation that may raise returns a [result].  The one array that is
    updated in place, the train model matrix handed to [center], lives in
    a store of array objects addressed by location; an object carries its
    element type, because an assignment into an integer array keeps only
    the integer part of what is assigned. *)

From Stdlib Require Import QArith Qcanon ZArith Lia.
From stdpp Require Import base option list sorting strings numbers gmap.

(** ** Python values, exceptions and control flow *)

Module Py.

Inductive exn : Set :=
| AssertionError
| IndexError
| KeyError
| TypeError
| ValueError
| ZeroDivisionError
| NotImplementedError.

Inductive result (A : Type) : Type :=
| Ok (a : A)
| Raise (e : exn).
Arguments Ok {A} a.
Arguments Raise {A} e.

#[export] Instance result_ret : MRet result := λ A a, Ok a.
#[export] Instance result_bind : MBind result := λ A B f m,
  match m with
  | Ok a => f a
  | Raise e => Raise e
  end.

Definition is_ok {A} (r : result A) : bool :=
  match r with Ok _ => true | Raise _ => false end.

(** The dynamic values the functions receive where the type matters:
    [n_pol] and the entries of the parameter dictionary. *)
Inductive value : Type :=
| PyNone
| PyBool (b : bool)
| PyInt (z : Z)
| PyFloat (q : Qc)
| PyStr (s : string).

(** Truth value of [v] in an [if]. *)
Definition truthy (v : value) : bool :=
  match v with
  | PyNone => false
  | PyBool b => b
  | PyInt z => negb (z =? 0)%Z
  | PyFloat q => negb (bool_decide (q = 0%Qc))
  | PyStr EmptyString => false
  | PyStr _ => true
  end.

(** A value used as a number in NumPy arithmetic. *)
Definition as_number (v : value) : result Qc :=
  match v with
  | PyBool b => Ok (if b then 1%Qc else 0%Qc)
  | PyInt z => Ok (Qc_of_Z z)
  | PyFloat q => Ok q
  | PyNone | PyStr _ => Raise TypeError
  end.

(** [l[i]] for a non-negative index. *)
Definition index {A} (l : list A) (i : nat) : result A :=
  match l !! i with
  | Some x => Ok x
  | None => Raise IndexError
  end.

(** [d[key]] for a dictionary with string keys. *)
Definition getitem {A} (d : gmap string A) (key : string) : result A :=
  match d !! key with
  | Some x => Ok x
  | None => Raise KeyError
  end.

(** [range(lo, hi, 1)] with [lo] a natural number and [hi] an integer. *)
Definition range (lo : nat) (hi : Z) : list nat :=
  seq lo (Z.to_nat (hi - Z.of_nat lo)).

(** [for x in xs: body(x)], stopping at the first exception. *)
Fixpoint for_each {A} (xs : list A) (body : A → result unit) : result unit :=
  match xs with
  | [] => Ok tt
  | x :: xs' => body x ≫= λ _, for_each xs' body
  end.

End Py.
Import Py.

Abbreviation vector := (list Qc).
Abbreviation matrix := (list (list Qc)).

(** ** NumPy primitives on one- and two-dimensional arrays *)

Module Np.
Local Open Scope Qc_scope.

(** [np.ones(n)] *)
Definition ones (n : nat) : vector := replicate n 1.

(** [np.sum], [np.mean], [np.max], [np.min] of a 1-D array; the last two
    are taken over a non-empty array (the callers check). *)
Definition sum (a : vector) : Qc := foldr Qcplus 0 a.
Definition mean (a : vector) : Qc := sum a / Qc_of_Z (Z.of_nat (length a)).
Definition qmax (x y : Qc) : Qc := if decide (x ≤ y) then y else x.
Definition qmin (x y : Qc) : Qc := if decide (x ≤ y) then x else y.
Definition maximum (a : vector) : Qc :=
  match a with [] => 0 | x :: a' => foldr qmax x a' end.
Definition minimum (a : vector) : Qc :=
  match a with [] => 0 | x :: a' => foldr qmin x a' end.
Definition qabs (x : Qc) : Qc := if decide (0 ≤ x) then x else - x.

(** Elementwise binary operator on two 1-D arrays with NumPy broadcasting:
    equal lengths pair up, a length-1 array is stretched, anything else is
    a [ValueError]. *)
Definition broadcast (f : Qc → Qc → Qc) (a b : vector) : result vector :=
  if decide (length a = length b) then Ok (zip_with f a b)
  else match a, b with
       | [x], _ => Ok (f x <$> b)
       | _, [y] => Ok ((λ x, f x y) <$> a)
       | _, _ => Raise ValueError
       end.

Definition mul := broadcast Qcmult.
Definition sub := broadcast Qcminus.

(** [a / b].  Where [b] holds a zero NumPy stores a non-finite float and
    does not raise; the quotient here is then 0, and no statement below
    speaks about such an entry. *)
Definition div := broadcast Qcdiv.

(** The element types of the arrays of this program. *)
Inductive dtype : Set := Int64 | Float64.

(** The value an array of element type [d] keeps when [q] is assigned to
    one of its entries: a float array keeps [q], an integer array cuts the
    fraction off (towards zero). *)
Definition truncate (q : Qc) : Z := Z.quot (Qnum q) (Zpos (Qden q)).
Definition cast (d : dtype) (q : Qc) : Qc :=
  match d with
  | Float64 => q
  | Int64 => Qc_of_Z (truncate q)
  end.

(** The [n] rows whose entries are taken, in order, from the given
    columns. *)
Definition from_columns (n : nat) (cols : list vector) : matrix :=
  (λ i, (λ c, default 0 (c !! i)) <$> cols) <$> seq 0 n.

(** [np.array(cols).T] for a Python list of 1-D arrays.  An empty list
    gives the empty array; columns of unequal lengths do not form a
    rectangular array ([ValueError]). *)
Definition array_T (cols : list vector) : result matrix :=
  match cols with
  | [] => Ok []
  | c :: _ =>
      if forallb (λ c', length c' =? length c)%nat cols
      then Ok (from_columns (length c) cols)
      else Raise ValueError
  end.

(** [m.shape[1]] and [m.T] of a 2-D array. *)
Definition ncols (m : matrix) : nat := length (default [] (head m)).
Definition transpose (m : matrix) : matrix := from_columns (ncols m) m.

(** [a @ b] for two 1-D arrays of one length, [m @ v] and [a @ b].  The
    shapes are checked row by row, so for an array without rows, whose
    number of columns is not recorded, nothing is checked. *)
Definition dot (a b : vector) : Qc := sum (zip_with Qcmult a b).

Definition matvec (m : matrix) (v : vector) : result vector :=
  mapM (λ row, if decide (length row = length v)
               then Ok (dot row v) else Raise ValueError) m.

Definition matmul (a b : matrix) : result matrix :=
  mapM (λ row, if decide (length row = length b)
               then Ok (dot row <$> transpose b) else Raise ValueError) a.

(** [np.eye(k)], [c * m] and [a + b] for arrays of one shape. *)
Definition eye (k : nat) : matrix :=
  (λ i, (λ j, if decide (i = j) then 1 else 0) <$> seq 0 k) <$> seq 0 k.
Definition scale (c : Qc) (m : matrix) : matrix :=
  (λ row : vector, Qcmult c <$> row) <$> m.
Definition add (a b : matrix) : matrix := zip_with (zip_with Qcplus) a b.

(** [np.mean(m, axis=0)]: the mean of each column. *)
Definition mean_axis0 (m : matrix) : vector := mean <$> transpose m.

(** [np.max(m, axis=0)] and [np.min(m, axis=0)]: a reduction without
    identity, refused on an array without rows. *)
Definition max_axis0 (m : matrix) : result vector :=
  match m with
  | [] => Raise ValueError
  | _ => Ok (maximum <$> transpose m)
  end.
Definition min_axis0 (m : matrix) : result vector :=
  match m with
  | [] => Raise ValueError
  | _ => Ok (minimum <$> transpose m)
  end.

(** [m - v] and [m / v] for a 2-D array and a 1-D array: [v] is paired
    with every row. *)
Definition rows_sub (m : matrix) (v : vector) : result matrix :=
  mapM (λ row, sub row v) m.
Definition rows_div (m : matrix) (v : vector) : result matrix :=
  mapM (λ row, div row v) m.

End Np.

(** ** itertools *)

Module Itertools.

(** [itertools.combinations_with_replacement(pool, r)]: the [r]-length
    tuples of elements of [pool], an element allowed more than once,
    emitted in lexicographic order of the positions in [pool]. *)
Fixpoint combinations_with_replacement {A} (pool : list A) (r : nat)
  : list (list A) :=
  match r with
  | O => [[]]
  | S r' =>
      (fix from (pool : list A) : list (list A) :=
         match pool with
         | [] => []
         | x :: rest =>
             (cons x <$> combinations_with_replacement pool r') ++ from rest
         end) pool
  end.

End Itertools.

(** ** Collaborators that are not part of regressors.py

    The enumeration of regressor kinds, the gradient-descent engine of
    [sgd.py], the cost derivatives of [tools.py], the pseudo-inverse, the
    scalar minimizer and NumPy's global random source.  The six members of
    [RegressorType] are the ones [get_beta] names; a tag that is none of
    them is any other Python value. *)

Inductive RegressorType : Set :=
| OLS | OLS_SGD | LASSO | RIDGE | RIDGE_SGD | LOGISTIC.

Inductive tag : Type :=
| Member (t : RegressorType)
| Foreign (v : value).

Record Env : Type := {
  Rng : Type;
  CostDerivative : Type;
  calculate_cost_derivative_logistic : CostDerivative;
  calculate_cost_derivative_mse : CostDerivative;
  calculate_cost_derivative_ridge : CostDerivative;
  (** [np.linalg.pinv] *)
  pinv : matrix → matrix;
  (** [scipy.optimize.minimize(fun, x0)['x']] *)
  minimize : (vector → result Qc) → vector → result vector;
  (** [np.random.normal(size=n)] *)
  random_normal : nat → Rng → vector * Rng;
  (** [stochastic_batch_gradient_descent(X, y, beta, derivative,
      learning_rate, max_iterations, momentum, batch_size, alpha)] *)
  stochastic_batch_gradient_descent :
    matrix → vector → vector → CostDerivative →
    value → value → value → value → value → Rng → result (vector * Rng);
}.

(** ** The store of array objects and the monad of regressors.py *)

Definition loc : Set := nat.

(** An array object: its element type and its rows. *)
Record ndarray : Type := Array {
  dtype_of : Np.dtype;
  rows_of : matrix;
}.

Record state (R : Type) : Type := State {
  heap : list ndarray;
  rng : R;
}.
Arguments State {R} heap rng.
Arguments heap {R} s.
Arguments rng {R} s.

Definition M (R : Type) (A : Type) : Type := state R → result (A * state R).

#[export] Instance M_ret {R} : MRet (M R) := λ A a σ, Ok (a, σ).
#[export] Instance M_bind {R} : MBind (M R) := λ A B f m σ,
  match m σ with
  | Ok (a, σ') => f a σ'
  | Raise e => Raise e
  end.

Definition lift {R A} (r : result A) : M R A := λ σ,
  match r with
  | Ok a => Ok (a, σ)
  | Raise e => Raise e
  end.

(** A draw from the global random source. *)
Definition with_rng {R A} (f : R → result (A * R)) : M R A := λ σ,
  match f (rng σ) with
  | Ok (a, r) => Ok (a, State (heap σ) r)
  | Raise e => Raise e
  end.

(** A new array object of element type [d] holding [m]. *)
Definition alloc {R} (d : Np.dtype) (m : matrix) : M R loc := λ σ,
  Ok (length (heap σ), State (heap σ ++ [Array d m]) (rng σ)).

(** The rows held by object [l]. *)
Definition load {R} (l : loc) : M R matrix := λ σ,
  match heap σ !! l with
  | Some a => Ok (rows_of a, σ)
  | None => Raise ValueError
  end.

(** [m[i] = row] on the array object [l]: the entries of [row] are cast
    to the element type of the object. *)
Definition store_row {R} (l : loc) (i : nat) (row : vector) : M R unit := λ σ,
  match heap σ !! l with
  | Some a =>
      if decide (i < length (rows_of a))%nat
      then Ok (tt, State (<[l := Array (dtype_of a)
                                   (<[i := Np.cast (dtype_of a) <$> row]>
                                      (rows_of a))]> (heap σ)) (rng σ))
      else Raise IndexError
  | None => Raise ValueError
  end.

(** [for x in xs: body(x)] in the monad. *)
Fixpoint for_eachM {R A} (xs : list A) (body : A → M R unit) : M R unit :=
  match xs with
  | [] => mret tt
  | x :: xs' => body x ≫= λ _, for_eachM xs' body
  end.

(** ** regressors.py *)

Section regressors.
Context (E : Env).
Local Open Scope Qc_scope.

(** Lines 9-10 *)
Definition calculate_beta (model_matrix : matrix) (targets : vector)
    : result vector :=
  xtx ← Np.matmul (Np.transpose model_matrix) model_matrix;
  p ← Np.matmul (pinv E xtx) (Np.transpose model_matrix);
  Np.matvec p targets.

(** Lines 12-14: [args = (alpha, model_matrix, targets)] *)
Definition lasso_error (alpha : value) (model_matrix : matrix)
    (targets : vector) (beta : vector) : result Qc :=
  n ← (if decide (length targets = 0%nat)
       then Raise ZeroDivisionError else Ok (length targets));
  xb ← Np.matvec model_matrix beta;
  r ← Np.sub targets xb;
  a ← as_number alpha;
  Ok (1 / (2 * Qc_of_Z (Z.of_nat n)) * Np.sum ((λ x, x * x) <$> (r : vector))
      + a * Np.sum (Np.qabs <$> beta)).

(** Lines 16-17 *)
Definition calculate_beta_lasso (model_matrix : matrix) (targets : vector)
    (alpha : value) : result vector :=
  minimize E (lasso_error alpha model_matrix targets)
    (Np.ones (Np.ncols model_matrix)).

(** Lines 19-20 *)
Definition calculate_beta_ridge (model_matrix : matrix) (targets : vector)
    (alpha : value) : result vector :=
  xtx ← Np.matmul (Np.transpose model_matrix) model_matrix;
  a ← as_number alpha;
  let penalised := Np.add xtx (Np.scale a (Np.eye (Np.ncols model_matrix))) in
  p ← Np.matmul (pinv E penalised) (Np.transpose model_matrix);
  Np.matvec p targets.

(** Lines 22-23 *)
Definition get_prediction (model_matrix : matrix) (beta : vector)
    (intercept : Qc) : result vector :=
  xb ← Np.matvec model_matrix beta;
  Ok ((λ x, x + intercept) <$> (xb : vector)).

(** Lines 30-31: the loop of [center], one row of the object at a time. *)
Definition center_row (l : loc) (m_mean divisor : vector) (i : nat)
    : M (Rng E) unit :=
  m ← load l;
  row ← lift (index m i);
  d ← lift (Np.sub row m_mean);
  q ← lift (Np.div d divisor);
  store_row l i q.

(** Lines 25-33: [matrix] is a reference to an array object; the object is
    updated row by row and the same reference is returned. *)
Definition center (matrix : loc) : M (Rng E) (loc * vector * vector) :=
  m ← load matrix;
  let m_mean := Np.mean_axis0 m in
  mx ← lift (Np.max_axis0 m);
  mn ← lift (Np.min_axis0 m);
  divisor ← lift (Np.sub mx mn);
  _ ← for_eachM (seq 0 (length m)) (center_row matrix m_mean divisor);
  mret (matrix, m_mean, divisor).

(** Lines 43-45: the check runs once per feature and always compares
    the first two sequences. *)
Definition check_dimensions (data_points : list vector) : result unit :=
  for_each (seq 0 (length data_points)) (λ _,
    a ← index data_points 0;
    b ← index data_points 1;
    if decide (length a = length b) then Ok tt else Raise AssertionError).

(** Line 48: [type(n_pol) == int]; a [bool] has its own type. *)
Definition check_n_pol (n_pol : value) : result Z :=
  match n_pol with
  | PyInt n => Ok n
  | _ => Raise AssertionError
  end.

(** Lines 66-74: the running product over one index combination. *)
Fixpoint column_product (data_points : list vector) (combination : list nat)
    (product : option vector) : result (option vector) :=
  match combination with
  | [] => Ok product
  | j :: rest =>
      x ← index data_points j;
      p ← match product with
          | None => Ok x
          | Some p => Np.mul p x
          end;
      column_product data_points rest (Some p)
  end.

(** Lines 55-60 *)
Definition index_combinations (data_points : list vector) (n_pol : Z)
    : list (list nat) :=
  let indices := seq 0 (length data_points) in
  i ← range 1 (n_pol + 1);
  Itertools.combinations_with_replacement indices i.

(** Lines 50-77.  A combination has at least one index, so [product] is
    an array when it is appended. *)
Definition model_matrix_columns (data_points : list vector) (n_pol : Z)
    (include_intercept : bool) : result (list vector) :=
  intercept ← (if include_intercept
               then x0 ← index data_points 0; Ok [Np.ones (length x0)]
               else Ok []);
  products ← mapM (λ c,
                column_product data_points c None ≫= λ product,
                match product with
                | Some p => Ok p
                | None => Raise TypeError
                end) (index_combinations data_points n_pol);
  Ok (intercept ++ products).

(** Lines 35-80 *)
Definition get_model_matrix (data_points : list vector) (n_pol : value)
    (include_intercept : bool) : result matrix :=
  _ ← check_dimensions data_points;
  n ← check_n_pol n_pol;
  columns ← model_matrix_columns data_points n include_intercept;
  Np.array_T columns.

(** The gradient-descent call shared by lines 95-127: a random first beta,
    then the engine with the four dictionary entries. *)
Definition descend (model_matrix : matrix) (targets : vector)
    (derivative : CostDerivative E)
    (regressor_parameters : gmap string value)
    (alpha : result value) : M (Rng E) vector :=
  beta ← with_rng (λ r, Ok (random_normal E (Np.ncols model_matrix) r));
  learning_rate ← lift (getitem regressor_parameters "learning_rate");
  max_iterations ← lift (getitem regressor_parameters "max_iterations");
  momentum ← lift (getitem regressor_parameters "momentum");
  batch_size ← lift (getitem regressor_parameters "batch_size");
  alpha ← lift alpha;
  with_rng (stochastic_batch_gradient_descent E model_matrix targets beta
              derivative learning_rate max_iterations momentum batch_size
              alpha).

(** Lines 82-129 *)
Definition get_beta (type : tag) (model_matrix : matrix) (targets : vector)
    (regressor_parameters : gmap string value) : M (Rng E) vector :=
  match type with
  | Member OLS => lift (calculate_beta model_matrix targets)
  | Member OLS_SGD =>
      descend model_matrix targets (calculate_cost_derivative_mse E)
        regressor_parameters (Ok (PyInt 0))
  | Member LASSO =>
      alpha ← lift (getitem regressor_parameters "alpha");
      lift (calculate_beta_lasso model_matrix targets alpha)
  | Member RIDGE =>
      alpha ← lift (getitem regressor_parameters "alpha");
      lift (calculate_beta_ridge model_matrix targets alpha)
  | Member RIDGE_SGD =>
      descend model_matrix targets (calculate_cost_derivative_ridge E)
        regressor_parameters (getitem regressor_parameters "alpha")
  | Member LOGISTIC =>
      descend model_matrix targets (calculate_cost_derivative_mse E)
        regressor_parameters (getitem regressor_parameters "alpha")
  | Foreign _ => lift (Raise NotImplementedError)
  end.

(** [train_data] and [test_data]: the entries ['inputs'] and ['targets'],
    and the element type of the feature arrays under ['inputs'], that is
    the type NumPy gives an array assembled from them: integer when every
    feature array holds integers, float otherwise. *)
Record data : Type := Data {
  inputs : list vector;
  targets : vector;
  inputs_dtype : Np.dtype;
}.

(** Line 143: without the column of ones every column of the model matrix
    is a product of feature arrays, so the matrix has their element type;
    with it (line 53, [np.ones]) the matrix is a float array. *)
Definition model_matrix_dtype (features : Np.dtype) (include_intercept : bool)
    : Np.dtype :=
  if include_intercept then Np.Float64 else features.

(** Lines 131-173 *)
Definition regressor (type : tag) (regressor_parameters : gmap string value)
    (train_data test_data : data) (n_pol : value)
    : M (Rng E) (vector * vector) :=
  fit_intercept ← lift (getitem regressor_parameters "fit_intercept");
  if truthy fit_intercept then
    m ← lift (get_model_matrix (inputs train_data) n_pol false);
    train_model_matrix ←
      alloc (model_matrix_dtype (inputs_dtype train_data) false) m;
    '(centered_train_model_matrix, train_mean, divisor_scaler) ←
      center train_model_matrix;
    centered ← load centered_train_model_matrix;
    beta ← get_beta type centered (targets train_data) regressor_parameters;
    train_prediction ←
      lift (get_prediction centered beta (Np.mean (targets train_data)));
    test_model_matrix ←
      lift (get_model_matrix (inputs test_data) n_pol false);
    shifted ← lift (Np.rows_sub test_model_matrix train_mean);
    centered_test_model_matrix ← lift (Np.rows_div shifted divisor_scaler);
    test_prediction ←
      lift (get_prediction centered_test_model_matrix beta
              (Np.mean (targets train_data)));
    mret (train_prediction, test_prediction)
  else
    train_model_matrix ← lift (get_model_matrix (inputs train_data) n_pol true);
    beta ← get_beta type train_model_matrix (targets train_data)
             regressor_parameters;
    train_prediction ← lift (get_prediction train_model_matrix beta 0);
    test_model_matrix ← lift (get_model_matrix (inputs test_data) n_pol true);
    test_prediction ← lift (get_prediction test_model_matrix beta 0);
    mret (train_prediction, test_prediction).

(** Lines 177-193: the shorthands. *)
Definition ols := regressor (Member OLS).
Definition ols_sgd := regressor (Member OLS_SGD).
Definition lasso := regressor (Member LASSO).
Definition ridge := regressor (Member RIDGE).
Definition ridge_sgd := regressor (Member RIDGE_SGD).
Definition logistic := regressor (Member LOGISTIC).

End regressors.

(** ** The wording of the specification, for comparison with the code *)

Section wording.
Local Open Scope Qc_scope.

(** All [d]-tuples of indices below [k], in lexicographic order. *)
Fixpoint all_tuples (k d : nat) : list (list nat) :=
  match d with
  | O => [[]]
  | S d' => y ← seq 0 k; cons y <$> all_tuples k d'
  end.

(** The combinations with replacement of [d] indices below [k]: the tuples
    in non-decreasing index order, enumerated lexicographically. *)
Definition sorted_combinations (k d : nat) : list (list nat) :=
  filter (Sorted le) (all_tuples k d).

(** The product, at observation [i], of the features chosen by [c]. *)
Definition product_at (data_points : list vector) (c : list nat) (i : nat)
    : Qc :=
  foldr (λ j acc, default 0 (default [] (data_points !! j) !! i) * acc) 1 c.

(** The elementwise product of the chosen feature sequences of length [n]. *)
Definition product_column (data_points : list vector) (n : nat)
    (c : list nat) : vector :=
  product_at data_points c <$> seq 0 n.

(** The columns the specification lists: the intercept if requested, then
    degree by degree the products over the sorted combinations. *)
Definition expected_columns (data_points : list vector) (n : nat)
    (n_pol : nat) (include_intercept : bool) : list vector :=
  (if include_intercept then [replicate n 1] else []) ++
  (d ← seq 1 n_pol;
   product_column data_points n <$>
     sorted_combinations (length data_points) d).

(** A two-dimensional array of [n] rows and [k] columns. *)
Definition rectangular (n k : nat) (m : matrix) : Prop :=
  length m = n ∧ Forall (λ row, length row = k) m.

(** Column [j] of a matrix. *)
Definition column (j : nat) (m : matrix) : vector :=
  (λ row : vector, default 0 (row !! j)) <$> m.

(** A column that takes at least two different values. *)
Definition varies (col : vector) : Prop :=
  ∃ a b, a ∈ col ∧ b ∈ col ∧ a ≠ b.

(** The affine maps of the scaler on a row and their replay on a matrix. *)
Definition scale_row (m_mean divisor row : vector) : vector :=
  zip_with Qcdiv (zip_with Qcminus row m_mean) divisor.
Definition unscale_row (m_mean divisor row : vector) : vector :=
  zip_with Qcplus (zip_with Qcmult row divisor) m_mean.

End wording.

(** The matrix NumPy forms from columns of one length [n]. *)
Definition matrix_of_columns (n : nat) (cols : list vector) : matrix :=
  match cols with
  | [] => []
  | _ => Np.from_columns n cols
  end.

(** The environment [E] with another logistic cost derivative. *)
Definition with_logistic (E : Env) (g : CostDerivative E) : Env := {|
  Rng := Rng E;
  CostDerivative := CostDerivative E;
  calculate_cost_derivative_logistic := g;
  calculate_cost_derivative_mse := calculate_cost_derivative_mse E;
  calculate_cost_derivative_ridge := calculate_cost_derivative_ridge E;
  pinv := pinv E;
  minimize := minimize E;
  random_normal := random_normal E;
  stochastic_batch_gradient_descent := stochastic_batch_gradient_descent E;
|}.

(** The matrix-vector and matrix-matrix products as plain formulas. *)
Definition mat_vec (m : matrix) (v : vector) : vector :=
  (λ row, Np.dot row v) <$> m.
Definition mat_mul (a b : matrix) : matrix :=
  (λ row, Np.dot row <$> Np.transpose b) <$> a.

(** The per-column range of the scaler: maximum minus minimum. *)
Definition range_axis0 (m : matrix) : vector :=
  zip_with Qcminus (Np.maximum <$> Np.transpose m)
                   (Np.minimum <$> Np.transpose m).

(** The rows of [m] rescaled with its own mean and range, as an array of
    element type [d] keeps them. *)
Definition centered_rows (d : Np.dtype) (m : matrix) : matrix :=
  (λ row : vector,
     Np.cast d <$> scale_row (Np.mean_axis0 m) (range_axis0 m) row) <$> m.


(** Observation [i]: the value of every feature at position [i]. *)
Definition observation (data_points : list vector) (i : nat) : vector :=
  (λ x : vector, default 0%Qc (x !! i)) <$> data_points.

(** The polynomial terms of one observation [p], without intercept. *)
Definition polynomial_row (n_pol : nat) (p : vector) : vector :=
  (λ c, foldr (λ j acc, default 0 (p !! j) * acc) 1 c)%Qc <$>
  (d ← seq 1 n_pol; sorted_combinations (length p) d).

(** The prediction for one row of a design matrix: the row is rescaled
    with the given mean and range, multiplied with [beta] and shifted. *)
Definition predict_row (m_mean divisor beta : vector) (intercept : Qc)
    (row : vector) : Qc :=
  (Np.dot (scale_row m_mean divisor row) beta + intercept)%Qc.

(** The model matrix without intercept that the specification describes
    for feature sequences of length [n]. *)
Definition design_matrix (data_points : list vector) (n : nat) (n_pol : Z)
    : matrix :=
  matrix_of_columns n (expected_columns data_points n (Z.to_nat n_pol) false).

(** The dictionary entries each kind of regressor reads in [get_beta]. *)
Definition keys_read (t : RegressorType) : list string :=
  match t with
  | OLS => []
  | LASSO | RIDGE => ["alpha"]
  | OLS_SGD => ["learning_rate"; "max_iterations"; "momentum"; "batch_size"]
  | RIDGE_SGD | LOGISTIC =>
      ["learning_rate"; "max_iterations"; "momentum"; "batch_size"; "alpha"]
  end%string.

(** ** Concrete inputs *)

(** Integer literals as rationals. *)
Definition qz (z : Z) : Qc := Q2Qc (inject_Z z).

(** An environment that reports which cost derivative the engine was
    handed: the fitted vector is [[1]] for the MSE derivative, [[2]] for
    the ridge one and [[3]] for the logistic one. *)
Definition probe : Env := {|
  Rng := unit;
  CostDerivative := Z;
  calculate_cost_derivative_logistic := 3%Z;
  calculate_cost_derivative_mse := 1%Z;
  calculate_cost_derivative_ridge := 2%Z;
  pinv := λ m, m;
  minimize := λ _ x0, Ok x0;
  random_normal := λ n r, (replicate n 0%Qc, r);
  stochastic_batch_gradient_descent :=
    λ _ _ _ derivative _ _ _ _ _ r, Ok ([qz derivative], r);
|}.

Definition probe_state : state (Rng probe) := State [] tt.

Definition sample_parameters (fit_intercept : bool) : gmap string value :=
  <["fit_intercept" := PyBool fit_intercept]>
    (<["alpha" := PyFloat (qz 1)]>
       (<["learning_rate" := PyFloat (qz 1)]>
          (<["max_iterations" := PyInt 10]>
             (<["momentum" := PyFloat (qz 0)]>
                (<["batch_size" := PyInt 2]> ∅))))).


(** A store whose only object is a two-by-two array. *)
Definition sample_matrix : matrix := [[qz 1; qz 3]; [qz 2; qz 5]].
Definition sample_state : state (Rng probe) :=
  State [Array Np.Float64 sample_matrix] tt.

(** The same array held as an integer array. *)
Definition sample_integer_state : state (Rng probe) :=
  State [Array Np.Int64 sample_matrix] tt.

(** Two features observed three times, with their targets: as float
    arrays and as integer arrays. *)
Definition sample_data : data :=
  Data [[qz 1; qz 2; qz 4]; [qz 3; qz 5; qz 4]] [qz 1; qz 2; qz 3]
    Np.Float64.
Definition sample_integer_data : data :=
  Data [[qz 1; qz 2; qz 4]; [qz 3; qz 5; qz 4]] [qz 1; qz 2; qz 3]
    Np.Int64.

(** Test data of two other observations of the two features. *)
Definition sample_test : data :=
  Data [[qz 2; qz 6]; [qz 4; qz 1]] [qz 0; qz 0] Np.Float64.

(** The rescaled train matrix of [sample_data] for degree one, the vector
    the OLS solver of [probe] fits on it, and the store afterwards. *)
Definition sample_centered : matrix :=
  let X := design_matrix (inputs sample_data) 3 1 in
  scale_row (Np.mean_axis0 X) (range_axis0 X) <$> X.
Definition sample_beta : vector :=
  match calculate_beta probe sample_centered (targets sample_data) with
  | Ok beta => beta
  | Raise _ => []
  end.
Definition sample_final : state (Rng probe) :=
  State [Array Np.Float64 sample_centered] tt.

(** The design matrix of [sample_data] with intercept for degree one and
    the vector the OLS solver of [probe] fits on it. *)
Definition sample_design : matrix :=
  matrix_of_columns 3 (expected_columns (inputs sample_data) 3 1 true).
Definition sample_beta_plain : vector :=
  match calculate_beta probe sample_design (targets sample_data) with
  | Ok beta => beta
  | Raise _ => []
  end.

(** ** Basic facts about the control-flow helpers *)

Lemma for_each_ok {A} (xs : list A) (body : A → result unit) :
  (∀ x, x ∈ xs → body x = Ok tt) → for_each xs body = Ok tt.
Proof.
  induction xs as [|x xs IH]; intros H; simpl; [done|].
  rewrite H by left. simpl. apply IH. intros y Hy. apply H. by right.
Qed.

Lemma for_each_raise_first {A} (x : A) xs (body : A → result unit) e :
  body x = Raise e → for_each (x :: xs) body = Raise e.
Proof. intros H. simpl. by rewrite H. Qed.

Lemma check_dimensions_nil : check_dimensions [] = Ok tt.
Proof. reflexivity. Qed.

Lemma check_dimensions_single x : check_dimensions [x] = Raise IndexError.
Proof. reflexivity. Qed.

Lemma check_dimensions_two a b rest :
  check_dimensions (a :: b :: rest) =
  if decide (length a = length b) then Ok tt else Raise AssertionError.
Proof.
  unfold check_dimensions. destruct (decide (length a = length b)) as [E|E].
  - apply for_each_ok. intros i _. simpl. by rewrite decide_True.
  - simpl length. simpl seq. apply for_each_raise_first. simpl.
    by rewrite decide_False.
Qed.

Lemma bind_ok {A B} (m : result A) (f : A → result B) a :
  m = Ok a → m ≫= f = f a.
Proof. by intros ->. Qed.

Lemma bind_raise {A B} (m : result A) (f : A → result B) e :
  m = Raise e → m ≫= f = Raise e.
Proof. by intros ->. Qed.

Lemma bind_inv_raise {A B} (m : result A) (f : A → result B) e :
  m ≫= f = Raise e → m = Raise e ∨ ∃ a, m = Ok a ∧ f a = Raise e.
Proof. destruct m as [a|e']; cbn; intros H; [right; eauto|left; congruence]. Qed.

Lemma mapM_ok {A B} (f : A → result B) (g : A → B) (l : list A) :
  Forall (λ x, f x = Ok (g x)) l → mapM f l = Ok (g <$> l).
Proof.
  induction 1 as [|x l Hx _ IH]; [done|].
  cbn [mapM]. rewrite Hx. cbn. rewrite IH. done.
Qed.

Lemma mapM_inv_raise {A B} (f : A → result B) (l : list A) e :
  mapM f l = Raise e → ∃ x, x ∈ l ∧ f x = Raise e.
Proof.
  induction l as [|x l IH]; [done|]. cbn [mapM].
  intros [H|(b & Hb & H)]%bind_inv_raise.
  - exists x. split; [left|done].
  - apply bind_inv_raise in H as [H|(bs & Hbs & H)]; [|done].
    destruct (IH H) as (y & Hy & Hfy). exists y. split; [by right|done].
Qed.

(** ** The intercept-only matrix *)

Lemma from_columns_ones n : Np.from_columns n [Np.ones n] = replicate n [1%Qc].
Proof.
  unfold Np.from_columns, Np.ones.
  apply list_eq. intros i. rewrite list_lookup_fmap.
  destruct (decide (i < n)%nat) as [Hi|Hi].
  - rewrite lookup_seq_lt by done. simpl.
    rewrite !lookup_replicate_2 by done. done.
  - rewrite lookup_seq_ge by lia. simpl.
    symmetry. apply lookup_replicate_None. lia.
Qed.

Lemma array_T_ones n : Np.array_T [Np.ones n] = Ok (replicate n [1%Qc]).
Proof.
  unfold Np.array_T. cbn [forallb]. rewrite Nat.eqb_refl. cbn.
  f_equal. unfold Np.ones at 1. rewrite length_replicate.
  apply from_columns_ones.
Qed.

Lemma range_empty lo hi : (hi ≤ Z.of_nat lo)%Z → range lo hi = [].
Proof. intros H. unfold range. by replace (Z.to_nat _) with 0%nat by lia. Qed.

Lemma index_combinations_nonpositive dp n :
  (n ≤ 0)%Z → index_combinations dp n = [].
Proof. intros H. unfold index_combinations. by rewrite range_empty by lia. Qed.

(** With a degree that is not positive the matrix has no polynomial
    column. *)
Lemma get_model_matrix_nonpositive a b rest n incl :
  length a = length b → (n ≤ 0)%Z →
  get_model_matrix (a :: b :: rest) (PyInt n) incl =
  Ok (if incl then replicate (length a) [1%Qc] else []).
Proof.
  intros Hab Hn. unfold get_model_matrix.
  rewrite check_dimensions_two, decide_True by done. cbn [mbind result_bind check_n_pol].
  unfold model_matrix_columns. rewrite index_combinations_nonpositive by done.
  destruct incl; cbn; [|done].
  rewrite Nat.eqb_refl. cbn. f_equal. unfold Np.ones at 1.
  rewrite length_replicate. apply from_columns_ones.
Qed.
(** ** The checks of get_model_matrix *)

(** When the first two feature sequences differ in length the call fails
    the assertion, whatever the other sequences, the degree and the
    intercept flag are. *)
Theorem get_model_matrix_first_two_differ a b rest n_pol incl :
  length a ≠ length b →
  get_model_matrix (a :: b :: rest) n_pol incl = Raise AssertionError.
Proof.
  intros Hab. unfold get_model_matrix.
  by rewrite check_dimensions_two, decide_False.
Qed.

Lemma array_T_no_assertion cols : Np.array_T cols ≠ Raise AssertionError.
Proof. unfold Np.array_T. destruct cols; [done|]. by case_match. Qed.

Lemma broadcast_no_assertion f a b : Np.broadcast f a b ≠ Raise AssertionError.
Proof.
  unfold Np.broadcast. case_decide; [done|].
  destruct a as [|? [|? ?]], b as [|? [|? ?]]; done.
Qed.

Lemma column_product_no_assertion dp c p :
  column_product dp c p ≠ Raise AssertionError.
Proof.
  revert p. induction c as [|j c IH]; intros p; cbn [column_product]; [done|].
  intros [H|(x & Hx & H)]%bind_inv_raise.
  { unfold index in H. by destruct (dp !! j). }
  apply bind_inv_raise in H as [H|(q & Hq & H)]; [|by eapply IH].
  destruct p; [|done]. by eapply broadcast_no_assertion.
Qed.

Lemma model_matrix_columns_no_assertion dp n incl :
  model_matrix_columns dp n incl ≠ Raise AssertionError.
Proof.
  unfold model_matrix_columns.
  intros [H|(i & Hi & H)]%bind_inv_raise.
  { destruct incl; [|done]. apply bind_inv_raise in H as [H|(x & Hx & H)]; [|done].
    unfold index in H. by destruct (dp !! 0%nat). }
  apply bind_inv_raise in H as [H|(q & Hq & H)]; [|done].
  apply mapM_inv_raise in H as (c & _ & H).
  apply bind_inv_raise in H as [H|(q & Hq & H)].
  - by eapply column_product_no_assertion.
  - by destruct q.
Qed.

(** C3.  Three feature sequences of which the third is shorter: the
    dimension check compares the first two only, and with degree 0 and the
    intercept a matrix is returned instead of a failure. *)
Theorem get_model_matrix_ragged_accepted :
  get_model_matrix [[qz 1; qz 2]; [qz 3; qz 4]; [qz 5]] (PyInt 0) true
  = Ok [[qz 1]; [qz 1]].
Proof. reflexivity. Qed.

(** C4.  For a single feature sequence [[x]] the dimension check reads
    [data_points[1]], which does not exist: the call raises [IndexError]
    for every degree and with or without intercept, and returns no
    matrix. *)
Theorem get_model_matrix_single_feature x n_pol incl :
  get_model_matrix [x] n_pol incl = Raise IndexError.
Proof. reflexivity. Qed.

(** C5, as stated, fails: a negative integer degree is accepted and gives
    the intercept-only matrix. *)
Lemma get_model_matrix_negative_degree_accepted :
  get_model_matrix [[qz 1; qz 2]; [qz 3; qz 4]] (PyInt (-1)) true
  = Ok [[qz 1]; [qz 1]].
Proof. reflexivity. Qed.

(** A float that is a whole number is refused, by the assertion. *)
Lemma get_model_matrix_whole_float_rejected :
  get_model_matrix [[qz 1; qz 2]; [qz 3; qz 4]] (PyFloat (qz 2)) true
  = Raise AssertionError.
Proof. reflexivity. Qed.

(** C5, amended.  Once the dimension check has passed, [get_model_matrix]
    fails the assertion on [n_pol] exactly when [n_pol] is not of type
    [int]; an integer that is zero or negative is accepted and gives the
    matrix without any polynomial column. *)
Theorem get_model_matrix_n_pol_type a b rest n_pol incl :
  length a = length b →
  (get_model_matrix (a :: b :: rest) n_pol incl = Raise AssertionError
   ↔ ∀ n, n_pol ≠ PyInt n)
  ∧ (∀ n, n_pol = PyInt n → (n ≤ 0)%Z →
       get_model_matrix (a :: b :: rest) n_pol incl =
       Ok (if incl then replicate (length a) [1%Qc] else [])).
Proof.
  intros Hab. split.
  - unfold get_model_matrix.
    rewrite check_dimensions_two, decide_True by done. cbn [mbind result_bind].
    destruct n_pol as [| |n| |]; cbn [check_n_pol mbind result_bind];
      try (split; [done|intros _; done]).
    split; [|intros H; by destruct (H n)].
    intros [H|(cols & _ & H)]%bind_inv_raise.
    + by apply model_matrix_columns_no_assertion in H.
    + by apply array_T_no_assertion in H.
  - intros n -> Hn. by apply get_model_matrix_nonpositive.
Qed.

Lemma get_model_matrix_n_pol_type_witness :
  (get_model_matrix [[qz 1; qz 2]; [qz 3; qz 4]] (PyInt (-1)) true
     = Raise AssertionError ↔ ∀ n, PyInt (-1) ≠ PyInt n)
  ∧ (∀ n, PyInt (-1) = PyInt n → (n ≤ 0)%Z →
       get_model_matrix [[qz 1; qz 2]; [qz 3; qz 4]] (PyInt (-1)) true =
       Ok (if true then replicate 2 [1%Qc] else [])).
Proof.
  apply (get_model_matrix_n_pol_type [qz 1; qz 2] [qz 3; qz 4] [] (PyInt (-1)) true).
  reflexivity.
Defined.
(** ** Combinations with replacement *)

Import Itertools.
Local Open Scope Qc_scope.

Lemma cwr_zero {A} (pool : list A) : combinations_with_replacement pool 0 = [[]].
Proof. reflexivity. Qed.

Lemma cwr_nil {A} r : combinations_with_replacement (@nil A) (S r) = [].
Proof. reflexivity. Qed.

Lemma cwr_cons {A} (x : A) rest r :
  combinations_with_replacement (x :: rest) (S r) =
  (cons x <$> combinations_with_replacement (x :: rest) r)
  ++ combinations_with_replacement rest (S r).
Proof. reflexivity. Qed.

(** Over a run of consecutive indices: one block per first index [y],
    holding the combinations of the indices from [y] on. *)
Lemma cwr_seq_blocks len : ∀ lo r,
  combinations_with_replacement (seq lo len) (S r) =
  y ← seq lo len;
  cons y <$> combinations_with_replacement (seq y (lo + len - y)) r.
Proof.
  induction len as [|len IH]; intros lo r; [done|].
  cbn [seq]. rewrite cwr_cons, IH. cbn [mbind list_bind]. f_equal.
  - replace (lo + S len - lo)%nat with (S len) by lia. done.
  - replace (S lo + len)%nat with (lo + S len)%nat by lia. done.
Qed.

Lemma filter_bind {A B} (P : B → Prop) `{!∀ x, Decision (P x)}
    (f : A → list B) (l : list A) :
  filter P (l ≫= f) = l ≫= (λ x, filter P (f x)).
Proof.
  induction l as [|x l IH]; [done|].
  cbn [mbind list_bind]. rewrite filter_app. by f_equal.
Qed.

Lemma filter_fmap_compose {A B} (P : B → Prop) `{!∀ x, Decision (P x)}
    (f : A → B) (l : list A) :
  filter P (f <$> l) = f <$> filter (λ x, P (f x)) l.
Proof.
  induction l as [|x l IH]; [done|].
  cbn [fmap list_fmap]. rewrite !filter_cons, IH.
  by destruct (decide (P (f x))).
Qed.

Lemma filter_none {A} (P : A → Prop) `{!∀ x, Decision (P x)} (l : list A) :
  (∀ x, ¬ P x) → filter P l = [].
Proof.
  intros HP. induction l as [|x l IH]; [done|].
  by rewrite filter_cons_False.
Qed.

Lemma Sorted_le_cons2 (lo y : nat) t :
  Sorted le (lo :: y :: t) ↔ (lo ≤ y)%nat ∧ Sorted le (y :: t).
Proof.
  split.
  - intros H. inversion H as [|? ? Hs Hh]; subst. inversion Hh; subst. done.
  - intros [Hle Hs]. constructor; [done|]. by constructor.
Qed.

Lemma bind_ext_in {A B} (f g : A → list B) (l : list A) :
  (∀ x, x ∈ l → f x = g x) → l ≫= f = l ≫= g.
Proof.
  induction l as [|x l IH]; intros H; [done|].
  cbn [mbind list_bind]. rewrite (H x) by left. f_equal. apply IH.
  intros y Hy. apply H. by right.
Qed.

Lemma bind_nil_in {A B} (f : A → list B) (l : list A) :
  (∀ x, x ∈ l → f x = []) → l ≫= f = [].
Proof.
  induction l as [|x l IH]; intros H; [done|].
  cbn [mbind list_bind]. rewrite (H x) by left. cbn. apply IH.
  intros y Hy. apply H. by right.
Qed.

(** The combinations over the indices [lo .. k-1] are the tuples over all
    of [0 .. k-1] that stay sorted when [lo] is put in front. *)
Lemma cwr_seq_filter k r : ∀ lo len, (lo + len = k)%nat →
  combinations_with_replacement (seq lo len) r =
  filter (λ t, Sorted le (lo :: t)) (all_tuples k r).
Proof.
  induction r as [|r IH]; intros lo len Hk.
  - cbn. rewrite decide_True; [done|]. repeat constructor.
  - rewrite cwr_seq_blocks. cbn [all_tuples]. rewrite filter_bind.
    replace (seq 0 k) with (seq 0 lo ++ seq lo len)
      by (rewrite <- Hk; symmetry; apply seq_app).
    rewrite bind_app.
    rewrite (bind_nil_in _ (seq 0 lo)); cycle 1.
    { intros y [_ Hy]%elem_of_seq. rewrite filter_fmap_compose.
      rewrite filter_none; [done|].
      intros t. rewrite Sorted_le_cons2. lia. }
    cbn [app]. apply bind_ext_in. intros y [Hy1 Hy2]%elem_of_seq.
    rewrite filter_fmap_compose. f_equal.
    replace (lo + len - y)%nat with (k - y)%nat by lia.
    rewrite (IH y (k - y)%nat) by lia.
    apply list_filter_iff. intros t. rewrite Sorted_le_cons2. tauto.
Qed.

Lemma cwr_indices_sorted_combinations k d :
  combinations_with_replacement (seq 0 k) d = sorted_combinations k d.
Proof.
  rewrite (cwr_seq_filter k d 0 k) by done. unfold sorted_combinations.
  apply list_filter_iff. intros t. split.
  - intros H. by inversion H.
  - intros H. constructor; [done|]. destruct t; constructor. lia.
Qed.

Lemma all_tuples_elem k d t :
  t ∈ all_tuples k d → length t = d ∧ Forall (λ j, (j < k)%nat) t.
Proof.
  revert t. induction d as [|d IH]; intros t; cbn [all_tuples].
  - intros ->%list_elem_of_singleton. done.
  - intros (y & Ht & Hy)%list_elem_of_bind.
    apply list_elem_of_fmap in Ht as (t' & -> & Ht').
    apply elem_of_seq in Hy. destruct (IH _ Ht') as [<- ?].
    split; [done|]. constructor; [lia|done].
Qed.

Lemma sorted_combinations_elem k d t :
  t ∈ sorted_combinations k d →
  length t = d ∧ Forall (λ j, (j < k)%nat) t ∧ Sorted le t.
Proof.
  unfold sorted_combinations. intros [Hs Ht]%list_elem_of_filter.
  destruct (all_tuples_elem _ _ _ Ht). done.
Qed.

(** A sequence of length [n] as the list of its entries. *)
Lemma vector_entries (x : vector) n :
  length x = n → x = (λ i, default 0 (x !! i)) <$> seq 0 n.
Proof.
  intros <-. apply list_eq. intros i. rewrite list_lookup_fmap.
  destruct (x !! i) as [q|] eqn:Hq.
  - rewrite lookup_seq_lt by (by eapply lookup_lt_Some). cbn. by rewrite Hq.
  - rewrite lookup_seq_ge; [done|]. by apply lookup_ge_None.
Qed.

Lemma zip_with_fmap_seq {A B C} (h : A → B → C) (f : nat → A) (g : nat → B) l :
  zip_with h (f <$> l) (g <$> l) = (λ i, h (f i) (g i)) <$> l.
Proof. induction l as [|i l IH]; [done|]. cbn. by f_equal. Qed.

Lemma broadcast_entries h (f g : nat → Qc) n :
  Np.broadcast h (f <$> seq 0 n) (g <$> seq 0 n) =
  Ok ((λ i, h (f i) (g i)) <$> seq 0 n).
Proof.
  unfold Np.broadcast. rewrite decide_True by (by rewrite !length_fmap).
  by rewrite zip_with_fmap_seq.
Qed.

Lemma index_lookup {A} (l : list A) i x : l !! i = Some x → index l i = Ok x.
Proof. unfold index. by intros ->. Qed.

Section columns.
Context (data_points : list vector) (n : nat).
Hypothesis Hlen : Forall (λ x, length x = n) data_points.

Lemma feature_entries j x :
  data_points !! j = Some x →
  x = (λ i, default 0 (default [] (data_points !! j) !! i)) <$> seq 0 n.
Proof.
  intros Hj. rewrite Hj. cbn. apply vector_entries.
  by eapply (Forall_lookup_1 _ _ _ _ Hlen).
Qed.

Lemma column_product_running c : ∀ f,
  Forall (λ j, (j < length data_points)%nat) c →
  column_product data_points c (Some (f <$> seq 0 n)) =
  Ok (Some ((λ i, f i * product_at data_points c i) <$> seq 0 n)).
Proof.
  induction c as [|j c IH]; intros f Hc; cbn [column_product].
  - do 2 f_equal. apply list_fmap_ext. intros _ i _. cbn. ring.
  - apply Forall_cons in Hc as [Hj Hc].
    apply lookup_lt_is_Some in Hj as [x Hx].
    rewrite (index_lookup _ _ _ Hx). cbn [mbind result_bind].
    rewrite (feature_entries _ _ Hx) at 1. unfold Np.mul.
    rewrite broadcast_entries. cbn [mbind result_bind].
    rewrite IH by done. do 2 f_equal.
    apply list_fmap_ext. intros _ i _. unfold product_at. cbn [foldr]. ring.
Qed.

Lemma column_product_start j c :
  Forall (λ j, (j < length data_points)%nat) (j :: c) →
  column_product data_points (j :: c) None =
  Ok (Some (product_column data_points n (j :: c))).
Proof.
  intros [Hj Hc]%Forall_cons. cbn [column_product].
  apply lookup_lt_is_Some in Hj as [x Hx].
  rewrite (index_lookup _ _ _ Hx). cbn [mbind result_bind].
  rewrite (feature_entries _ _ Hx) at 1.
  rewrite column_product_running by done. done.
Qed.

Lemma index_combinations_sorted n_pol :
  index_combinations data_points n_pol =
  d ← seq 1 (Z.to_nat n_pol); sorted_combinations (length data_points) d.
Proof.
  unfold index_combinations, range. cbn zeta.
  replace (Z.to_nat (n_pol + 1 - Z.of_nat 1)) with (Z.to_nat n_pol) by lia.
  apply bind_ext_in. intros d _. apply cwr_indices_sorted_combinations.
Qed.

Lemma index_combinations_elem n_pol c :
  c ∈ index_combinations data_points n_pol →
  c ≠ [] ∧ Forall (λ j, (j < length data_points)%nat) c.
Proof.
  rewrite index_combinations_sorted.
  intros (d & Hc & Hd)%list_elem_of_bind.
  apply elem_of_seq in Hd.
  apply sorted_combinations_elem in Hc as (Hl & Hc & _).
  split; [|done]. intros ->. cbn in Hl. lia.
Qed.

Lemma fmap_bind_list {A B C} (g : B → C) (f : A → list B) (l : list A) :
  g <$> (l ≫= f) = l ≫= (λ x, g <$> f x).
Proof.
  induction l as [|x l IH]; [done|].
  cbn [mbind list_bind]. by rewrite fmap_app, IH.
Qed.

(** Lines 50-77 build exactly the columns the specification lists. *)
Lemma model_matrix_columns_expected n_pol incl :
  (incl = true → data_points ≠ []) →
  model_matrix_columns data_points n_pol incl =
  Ok (expected_columns data_points n (Z.to_nat n_pol) incl).
Proof.
  intros Hne. unfold model_matrix_columns, expected_columns.
  assert ((if incl
           then x0 ← index data_points 0; Ok [Np.ones (length x0)]
           else Ok []) = Ok (if incl then [replicate n 1] else [])) as ->.
  { destruct incl; [|done]. destruct data_points as [|x0 rest]; [by destruct Hne|].
    cbn. apply Forall_cons in Hlen as [-> _]. done. }
  cbn [mbind result_bind].
  rewrite (mapM_ok _ (product_column data_points n)); cycle 1.
  { apply Forall_forall. intros c [Hc1 Hc2]%index_combinations_elem.
    destruct c as [|j c]; [done|]. by rewrite column_product_start. }
  cbn [mbind result_bind]. do 2 f_equal.
  rewrite index_combinations_sorted. apply fmap_bind_list.
Qed.

End columns.

Lemma array_T_uniform n cols :
  Forall (λ c : vector, length c = n) cols →
  Np.array_T cols = Ok (matrix_of_columns n cols).
Proof.
  intros H. destruct cols as [|c cols]; [done|].
  unfold Np.array_T, matrix_of_columns.
  assert (length c = n) as Hc by (by inversion H).
  rewrite (proj2 (forallb_forall _ _)); [by rewrite Hc|].
  intros c' Hc'%list_elem_of_In. apply Nat.eqb_eq.
  rewrite Hc. by eapply (proj1 (Forall_forall _ _) H).
Qed.

Lemma expected_columns_length dp n n_pol incl :
  Forall (λ c : vector, length c = n) (expected_columns dp n n_pol incl).
Proof.
  unfold expected_columns. apply Forall_app. split.
  - destruct incl; [|done]. constructor; [|done]. apply length_replicate.
  - apply Forall_forall. intros c (d & Hc & _)%list_elem_of_bind.
    apply list_elem_of_fmap in Hc as (t & -> & _).
    unfold product_column. by rewrite length_fmap, length_seq.
Qed.

Lemma get_model_matrix_expected dp n n_pol incl :
  Forall (λ x : vector, length x = n) dp →
  (2 ≤ length dp)%nat ∨ (dp = [] ∧ incl = false) →
  get_model_matrix dp (PyInt n_pol) incl =
  Ok (matrix_of_columns n (expected_columns dp n (Z.to_nat n_pol) incl)).
Proof.
  intros Hlen Hdp. unfold get_model_matrix.
  assert (check_dimensions dp = Ok tt) as ->.
  { destruct Hdp as [Hdp|[-> _]]; [|done].
    destruct dp as [|a [|b rest]]; [cbn in Hdp; lia..|].
    rewrite check_dimensions_two, decide_True; [done|].
    apply Forall_cons in Hlen as [-> Hlen].
    by apply Forall_cons in Hlen as [-> _]. }
  cbn [mbind result_bind check_n_pol].
  rewrite (model_matrix_columns_expected dp n Hlen); cycle 1.
  { intros -> ->. destruct Hdp as [Hdp|[_ ?]]; [cbn in Hdp; lia|done]. }
  cbn [mbind result_bind]. apply array_T_uniform, expected_columns_length.
Qed.

Lemma get_model_matrix_no_features_intercept n_pol :
  get_model_matrix [] n_pol true ≠ Ok [] ∧
  ∀ m, get_model_matrix [] n_pol true ≠ Ok m.
Proof.
  unfold get_model_matrix. cbn. destruct n_pol; cbn; done.
Qed.

(** C1.  For feature sequences of one length [n] and a degree [n_pol] that
    is not negative, every matrix [get_model_matrix] returns is the one made
    of these columns in this order: the column of ones if the intercept is
    requested, then for each degree from 1 to [n_pol] one column per sorted
    combination of feature indices, each the elementwise product of the
    chosen sequences.  With two features or more the matrix is returned.
    For two features [x], [y], degree 2 and no intercept the columns are
    [x], [y], [x*x], [x*y], [y*y]. *)
Theorem get_model_matrix_column_order dp n n_pol incl :
  Forall (λ x : vector, length x = n) dp → (0 ≤ n_pol)%Z →
  let expected :=
    matrix_of_columns n (expected_columns dp n (Z.to_nat n_pol) incl) in
  (∀ m, get_model_matrix dp (PyInt n_pol) incl = Ok m → m = expected)
  ∧ ((2 ≤ length dp)%nat →
     get_model_matrix dp (PyInt n_pol) incl = Ok expected)
  ∧ (∀ x y : vector, length x = length y →
     get_model_matrix [x; y] (PyInt 2) false =
     Np.array_T [x; y; zip_with Qcmult x x; zip_with Qcmult x y;
                 zip_with Qcmult y y]).
Proof.
  intros Hlen Hn expected. subst expected. split; [|split].
  - intros m Hm.
    destruct dp as [|a [|b rest]].
    + destruct incl.
      * by destruct (proj2 (get_model_matrix_no_features_intercept (PyInt n_pol)) m).
      * rewrite (get_model_matrix_expected [] n) in Hm by auto. congruence.
    + done.
    + rewrite (get_model_matrix_expected _ n) in Hm by (cbn; auto with lia).
      congruence.
  - intros Hdp. apply get_model_matrix_expected; auto.
  - intros x y Hxy. unfold get_model_matrix.
    rewrite check_dimensions_two, decide_True by done.
    cbn [mbind result_bind check_n_pol]. unfold model_matrix_columns.
    cbn [mbind result_bind]. 
    change (index_combinations [x; y] 2) with [[0]; [1]; [0; 0]; [0; 1]; [1; 1]]%nat.
    cbn [mapM column_product index lookup list_lookup mbind result_bind mret result_ret].
    unfold Np.mul, Np.broadcast. rewrite !decide_True by done. done.
Qed.

Lemma get_model_matrix_column_order_witness :
  Forall (λ x : vector, length x = 2%nat) [[qz 1; qz 2]; [qz 3; qz 4]]
  ∧ get_model_matrix [[qz 1; qz 2]; [qz 3; qz 4]] (PyInt 2) true =
    Ok (matrix_of_columns 2
          (expected_columns [[qz 1; qz 2]; [qz 3; qz 4]] 2 2 true)).
Proof.
  assert (Forall (λ x : vector, length x = 2%nat) [[qz 1; qz 2]; [qz 3; qz 4]])
    as H by (repeat constructor).
  split; [exact H|].
  apply (get_model_matrix_column_order _ 2 2 true H); [lia | cbn; lia].
Defined.

Example expected_columns_two_features :
  matrix_of_columns 2 (expected_columns [[qz 1; qz 2]; [qz 3; qz 4]] 2 2 true)
  = [[qz 1; qz 1; qz 3; qz 1; qz 3; qz 9]; [qz 1; qz 2; qz 4; qz 4; qz 8; qz 16]].
Proof. apply (bool_decide_unpack _). vm_compute. exact I. Qed.

(** ** The state monad *)

Lemma M_bind_unfold {R A B} (m : M R A) (f : A → M R B) σ :
  (m ≫= f) σ = match m σ with
               | Ok (a, σ') => f a σ'
               | Raise e => Raise e
               end.
Proof. reflexivity. Qed.

Lemma M_bind_raise {R A B} (m : M R A) (f : A → M R B) σ e :
  m σ = Raise e → (m ≫= f) σ = Raise e.
Proof. intros H. by rewrite M_bind_unfold, H. Qed.

Lemma M_bind_ok {R A B} (m : M R A) (f : A → M R B) σ a σ' :
  m σ = Ok (a, σ') → (m ≫= f) σ = f a σ'.
Proof. intros H. by rewrite M_bind_unfold, H. Qed.

Lemma lift_ok {R A} (r : result A) a (σ : state R) :
  r = Ok a → lift r σ = Ok (a, σ).
Proof. by intros ->. Qed.

Lemma lift_raise {R A} (r : result A) e (σ : state R) :
  r = Raise e → lift r σ = Raise e.
Proof. by intros ->. Qed.

(** A failing step makes the whole computation fail, whatever follows. *)
Lemma M_bind_always_raises {R A B} (m : M R A) (f : A → M R B) σ :
  (∀ a σ', ∃ e, f a σ' = Raise e) → ∃ e, (m ≫= f) σ = Raise e.
Proof.
  intros Hf. rewrite M_bind_unfold. destruct (m σ) as [[a σ']|e]; eauto.
Qed.

Lemma get_beta_foreign E v X y params σ :
  get_beta E (Foreign v) X y params σ = Raise NotImplementedError.
Proof. reflexivity. Qed.

(** C9.  For a tag that is none of the six kinds [get_beta] raises
    [NotImplementedError], and [regressor] raises and so returns no
    prediction. *)
Theorem unknown_kind_not_implemented :
  (∀ E v X y params σ,
     get_beta E (Foreign v) X y params σ = Raise NotImplementedError)
  ∧ (∀ E v params train_data test_data n_pol σ,
       ∃ e, regressor E (Foreign v) params train_data test_data n_pol σ
            = Raise e)
  ∧ regressor probe (Foreign (PyStr "SVM")) (sample_parameters true)
      (Data [[qz 1; qz 2]; [qz 3; qz 5]] [qz 1; qz 2] Np.Float64)
      (Data [[qz 1; qz 2]; [qz 3; qz 5]] [qz 1; qz 2] Np.Float64) (PyInt 1)
      probe_state
    = Raise NotImplementedError.
Proof.
  split; [|split].
  - intros. apply get_beta_foreign.
  - intros. unfold regressor.
    apply M_bind_always_raises. intros fit σ1.
    destruct (truthy fit).
    + apply M_bind_always_raises. intros m σ2.
      apply M_bind_always_raises. intros l σ3.
      apply M_bind_always_raises. intros [[l' mean] divisor] σ4.
      apply M_bind_always_raises. intros centered σ5.
      rewrite M_bind_unfold, get_beta_foreign. eauto.
    + apply M_bind_always_raises. intros m σ2.
      rewrite M_bind_unfold, get_beta_foreign. eauto.
  - vm_compute. reflexivity.
Qed.


(** C6.  The logistic kind hands the engine the MSE cost derivative, the
    same one as the OLS gradient-descent kind: replacing the logistic
    derivative of the environment changes nothing, and in the probing
    environment the fit reports the MSE derivative, which is not the
    logistic one. *)
Theorem logistic_kind_descends_on_mse :
  (∀ E X y params,
     get_beta E (Member LOGISTIC) X y params =
     descend E X y (calculate_cost_derivative_mse E) params
       (getitem params "alpha"))
  ∧ (∀ E g X y params,
       get_beta (with_logistic E g) (Member LOGISTIC) X y params =
       get_beta E (Member LOGISTIC) X y params)
  ∧ get_beta probe (Member LOGISTIC) [[qz 1]; [qz 2]] [qz 1; qz 2]
      (sample_parameters true) probe_state
    = Ok ([qz (calculate_cost_derivative_mse probe)], probe_state)
  ∧ calculate_cost_derivative_mse probe
    ≠ calculate_cost_derivative_logistic probe.
Proof.
  split; [reflexivity|]. split; [reflexivity|]. split; [|done].
  vm_compute. reflexivity.
Qed.

(** ** Sums and products of arrays *)

Lemma sum_fmap_plus {A} (f g : A → Qc) l :
  Np.sum ((λ i, f i + g i) <$> l) = Np.sum (f <$> l) + Np.sum (g <$> l).
Proof.
  unfold Np.sum. induction l as [|i l IH]; cbn [fmap list_fmap foldr]; [ring|].
  rewrite IH. ring.
Qed.

Lemma sum_fmap_scale {A} c (f : A → Qc) l :
  Np.sum ((λ i, c * f i) <$> l) = c * Np.sum (f <$> l).
Proof.
  unfold Np.sum. induction l as [|i l IH]; cbn [fmap list_fmap foldr]; [ring|].
  rewrite IH. ring.
Qed.

Lemma sum_fmap_zero {A} (l : list A) : Np.sum ((λ _, 0) <$> l) = 0.
Proof.
  unfold Np.sum. induction l as [|i l IH]; cbn [fmap list_fmap foldr]; [done|].
  rewrite IH. ring.
Qed.

Lemma dot_entries (f g : nat → Qc) l :
  Np.dot (f <$> l) (g <$> l) = Np.sum ((λ i, f i * g i) <$> l).
Proof. unfold Np.dot. by rewrite zip_with_fmap_seq. Qed.

Lemma dot_cons x a y b : Np.dot (x :: a) (y :: b) = x * y + Np.dot a b.
Proof. reflexivity. Qed.

Lemma dot_nil_l b : Np.dot [] b = 0.
Proof. reflexivity. Qed.

Lemma length_from_columns n cols : length (Np.from_columns n cols) = n.
Proof. unfold Np.from_columns. by rewrite length_fmap, length_seq. Qed.

Lemma from_columns_rows n cols :
  Forall (λ row : vector, length row = length cols) (Np.from_columns n cols).
Proof.
  unfold Np.from_columns. apply Forall_fmap, Forall_forall. intros i _.
  cbn. by rewrite length_fmap.
Qed.

Lemma ncols_cons row m : Np.ncols (row :: m) = length row.
Proof. reflexivity. Qed.

(** [(p @ b) @ y = p @ (b @ y)] for one row [p], a matrix [b] whose rows
    have the length of [y]. *)
Lemma dot_assoc n (b : matrix) : ∀ (p y : vector),
  length p = length b → length y = n →
  Forall (λ row : vector, length row = n) b →
  Np.dot (Np.dot p <$> Np.from_columns n b) y = Np.dot p (mat_vec b y).
Proof.
  intros p y Hp Hy Hb. rewrite (vector_entries y n Hy) at 1.
  unfold Np.from_columns, mat_vec. rewrite <- list_fmap_compose, dot_entries.
  revert p Hp. induction Hb as [|row b Hrow Hb IH]; intros p Hp.
  - destruct p; [|done]. cbn [fmap list_fmap compose].
    rewrite dot_nil_l.
    rewrite (list_fmap_ext _ (λ _, 0)); [apply sum_fmap_zero|].
    intros _ i _. cbn. ring.
  - destruct p as [|p0 p]; [done|]. injection Hp as Hp.
    cbn [fmap list_fmap compose]. rewrite dot_cons.
    rewrite <- (IH p Hp).
    rewrite (list_fmap_ext _
      (λ i, p0 * (default 0 (row !! i) * default 0 (y !! i))
            + (Np.dot p ∘ (λ i, (λ c : vector, default 0 (c !! i)) <$> b)) i
              * default 0 (y !! i))); cycle 1.
    { intros _ i _. unfold compose. rewrite dot_cons. ring. }
    rewrite sum_fmap_plus, sum_fmap_scale. f_equal. f_equal.
    rewrite <- dot_entries. by rewrite <- !vector_entries.
Qed.

Lemma matvec_ok (m : matrix) (v : vector) :
  Forall (λ row : vector, length row = length v) m →
  Np.matvec m v = Ok (mat_vec m v).
Proof.
  intros H. unfold Np.matvec, mat_vec. apply mapM_ok.
  eapply Forall_impl; [exact H|]. intros row Hrow. cbn beta.
  by rewrite decide_True.
Qed.

Lemma matmul_ok (a b : matrix) :
  Forall (λ row : vector, length row = length b) a →
  Np.matmul a b = Ok (mat_mul a b).
Proof.
  intros H. unfold Np.matmul, mat_mul. apply mapM_ok.
  eapply Forall_impl; [exact H|]. intros row Hrow. cbn beta.
  by rewrite decide_True.
Qed.

Lemma mat_mul_rectangular (a b : matrix) :
  rectangular (length a) (Np.ncols b) (mat_mul a b).
Proof.
  unfold mat_mul. split; [by rewrite length_fmap|].
  apply Forall_fmap, Forall_forall. intros row _. cbn.
  unfold Np.transpose. by rewrite length_fmap, length_from_columns.
Qed.

Lemma transpose_rectangular (m : matrix) :
  rectangular (Np.ncols m) (length m) (Np.transpose m).
Proof.
  unfold Np.transpose. split; [apply length_from_columns|].
  apply from_columns_rows.
Qed.

(** The transpose of a matrix with at least one column has as many columns
    as the matrix has rows. *)
Lemma ncols_transpose (m : matrix) :
  Np.ncols m ≠ 0%nat → Np.ncols (Np.transpose m) = length m.
Proof.
  intros H. destruct (transpose_rectangular m) as [Hl Hr].
  destruct (Np.transpose m) as [|row t]; [done|].
  rewrite ncols_cons. by inversion Hr.
Qed.

(** [(p @ x.T) @ y = p @ (x.T @ y)] *)
Lemma solve_assoc (p x : matrix) (y : vector) :
  rectangular (Np.ncols x) (Np.ncols x) p →
  length y = length x →
  Np.matmul p (Np.transpose x) ≫= (λ q, Np.matvec q y) =
  Ok (mat_vec p (mat_vec (Np.transpose x) y)).
Proof.
  intros [Hp1 Hp2] Hy.
  destruct (transpose_rectangular x) as [Ht1 Ht2].
  rewrite matmul_ok by (by rewrite Ht1). cbn [mbind result_bind].
  destruct (decide (Np.ncols x = 0%nat)) as [Hk|Hk].
  { rewrite Hk in Hp1. destruct p; [done|done]. }
  rewrite matvec_ok; cycle 1.
  { destruct (mat_mul_rectangular p (Np.transpose x)) as [_ H].
    by rewrite ncols_transpose, <- Hy in H. }
  f_equal. unfold mat_mul, mat_vec at 1 2.
  rewrite <- list_fmap_compose. apply list_fmap_ext. intros i row Hrow.
  cbn. unfold Np.transpose at 1. rewrite ncols_transpose by done.
  apply dot_assoc; [|done|done].
  rewrite Ht1. by eapply (Forall_lookup_1 _ _ _ _ Hp2).
Qed.

Lemma eye_rectangular k : rectangular k k (Np.eye k).
Proof.
  unfold Np.eye. split; [by rewrite length_fmap, length_seq|].
  apply Forall_fmap, Forall_forall. intros i _. cbn.
  by rewrite length_fmap, length_seq.
Qed.

Lemma scale_rectangular n k c m :
  rectangular n k m → rectangular n k (Np.scale c m).
Proof.
  intros [H1 H2]. unfold Np.scale. split; [by rewrite length_fmap|].
  apply Forall_fmap. eapply Forall_impl; [exact H2|].
  intros row Hrow. cbn. by rewrite length_fmap.
Qed.

Lemma add_rows k (a b : matrix) :
  Forall (λ row : vector, length row = k) a →
  Forall (λ row : vector, length row = k) b →
  Forall (λ row : vector, length row = k) (Np.add a b).
Proof.
  intros Ha. revert b. induction Ha as [|ra a Hra _ IH]; intros b Hb; [done|].
  destruct Hb as [|rb b Hrb Hb]; [done|].
  unfold Np.add. cbn [zip_with]. constructor; [|by apply IH].
  rewrite length_zip_with. lia.
Qed.

Lemma add_rectangular n k a b :
  rectangular n k a → rectangular n k b → rectangular n k (Np.add a b).
Proof.
  intros [Ha1 Ha2] [Hb1 Hb2]. split; [|by apply add_rows].
  unfold Np.add. rewrite length_zip_with. lia.
Qed.

Lemma gram_ok (x : matrix) :
  Np.matmul (Np.transpose x) x = Ok (mat_mul (Np.transpose x) x)
  ∧ rectangular (Np.ncols x) (Np.ncols x) (mat_mul (Np.transpose x) x).
Proof.
  destruct (transpose_rectangular x) as [Ht1 Ht2]. split.
  - by apply matmul_ok.
  - rewrite <- Ht1 at 1. apply mat_mul_rectangular.
Qed.

(** C7.  For a design matrix [X], targets [y] of the length of [X] and a
    pseudo-inverse that keeps the shape of a square matrix, the OLS solver
    returns [pinv(Xt X) (Xt y)] and the ridge solver with penalty [a]
    returns [pinv(Xt X + a I) (Xt y)], [I] being the identity of the size of
    the column count of [X].  Both are functions: no state, no loop. *)
Theorem closed_form_solvers (E : Env) (X : matrix) (y : vector)
    (alpha : value) (a : Qc) :
  let k := Np.ncols X in
  let Xt := Np.transpose X in
  length y = length X →
  (∀ A, rectangular k k A → rectangular k k (pinv E A)) →
  as_number alpha = Ok a →
  calculate_beta E X y =
    Ok (mat_vec (pinv E (mat_mul Xt X)) (mat_vec Xt y))
  ∧ calculate_beta_ridge E X y alpha =
    Ok (mat_vec
          (pinv E (Np.add (mat_mul Xt X) (Np.scale a (Np.eye k))))
          (mat_vec Xt y)).
Proof.
  intros k Xt Hy Hpinv Ha. destruct (gram_ok X) as [Hg Hr]. split.
  - unfold calculate_beta. rewrite Hg. cbn [mbind result_bind].
    apply solve_assoc; [|done]. by apply Hpinv.
  - unfold calculate_beta_ridge. rewrite Hg, Ha. cbn [mbind result_bind].
    apply solve_assoc; [|done]. apply Hpinv, add_rectangular; [done|].
    apply scale_rectangular, eye_rectangular.
Qed.

Lemma closed_form_solvers_witness :
  let X := [[qz 1; qz 3]; [qz 2; qz 5]] in
  let y := [qz 1; qz 1] in
  calculate_beta probe X y =
    Ok (mat_vec (pinv probe (mat_mul (Np.transpose X) X))
          (mat_vec (Np.transpose X) y))
  ∧ calculate_beta_ridge probe X y (PyFloat (qz 1)) =
    Ok (mat_vec
          (pinv probe (Np.add (mat_mul (Np.transpose X) X)
                         (Np.scale (qz 1) (Np.eye (Np.ncols X)))))
          (mat_vec (Np.transpose X) y)).
Proof.
  intros X y.
  apply (closed_form_solvers probe X y (PyFloat (qz 1)) (qz 1)).
  - reflexivity.
  - intros A HA. exact HA.
  - reflexivity.
Defined.

(** ** The scaler *)

Lemma state_eta {R} (σ : state R) : State (heap σ) (rng σ) = σ.
Proof. by destruct σ. Qed.

Lemma broadcast_same_length f (a b : vector) :
  length a = length b → Np.broadcast f a b = Ok (zip_with f a b).
Proof. intros H. unfold Np.broadcast. by rewrite decide_True. Qed.

Section center.
Context (E : Env) (l : loc) (d : Np.dtype) (m_mean divisor : vector) (k : nat).
Hypothesis Hmean : length m_mean = k.
Hypothesis Hdivisor : length divisor = k.

Let stored (row : vector) : vector :=
  Np.cast d <$> scale_row m_mean divisor row.

(** One pass of the loop of [center] rewrites the row in place, cast to
    the element type of the array. *)
Lemma center_row_spec (before after : matrix) (row : vector)
    (σ : state (Rng E)) :
  heap σ !! l = Some (Array d (before ++ row :: after)) → length row = k →
  center_row E l m_mean divisor (length before) σ =
  Ok (tt, State (<[l := Array d (before ++ stored row :: after)]> (heap σ))
            (rng σ)).
Proof.
  intros Hl Hrow. unfold center_row.
  rewrite (M_bind_ok _ _ _ (before ++ row :: after) σ)
    by (unfold load; by rewrite Hl).
  rewrite (M_bind_ok _ _ _ row σ); cycle 1.
  { apply lift_ok. unfold index. by rewrite list_lookup_middle. }
  rewrite (M_bind_ok _ _ _ (zip_with Qcminus row m_mean) σ); cycle 1.
  { apply lift_ok, broadcast_same_length. congruence. }
  rewrite (M_bind_ok _ _ _ (scale_row m_mean divisor row) σ); cycle 1.
  { apply lift_ok, broadcast_same_length.
    rewrite length_zip_with. lia. }
  unfold store_row. rewrite Hl. cbn [dtype_of rows_of].
  rewrite decide_True by (rewrite length_app; cbn; lia).
  do 4 f_equal. rewrite insert_app_r_alt by done.
  by rewrite Nat.sub_diag.
Qed.

(** The loop, from any row on: the rows already seen stay, the others are
    rescaled. *)
Lemma center_loop_spec (after : matrix) : ∀ (before : matrix)
    (σ : state (Rng E)),
  heap σ !! l = Some (Array d (before ++ after)) →
  Forall (λ row : vector, length row = k) after →
  for_eachM (seq (length before) (length after))
    (center_row E l m_mean divisor) σ =
  Ok (tt, State (<[l := Array d (before ++ (stored <$> after))]> (heap σ))
            (rng σ)).
Proof.
  induction after as [|row after IH]; intros before σ Hl Hk.
  - cbn. rewrite list_insert_id by done. by rewrite state_eta.
  - apply Forall_cons in Hk as [Hrow Hk].
    cbn [length seq for_eachM].
    erewrite M_bind_ok by (by apply center_row_spec).
    assert (l < length (heap σ))%nat as Hlt by (by eapply lookup_lt_Some).
    replace (S (length before))
      with (length (before ++ [stored row]))
      by (rewrite length_app; cbn; lia).
    rewrite IH; [|cbn [heap]|done].
    + cbn [heap rng]. rewrite list_insert_insert_eq.
      by rewrite <- app_assoc.
    + rewrite list_lookup_insert_eq by done. by rewrite <- app_assoc.
Qed.

End center.

Lemma transpose_columns (m : matrix) :
  Np.transpose m = (λ j, column j m) <$> seq 0 (Np.ncols m).
Proof. reflexivity. Qed.

Lemma length_mean_axis0 m : length (Np.mean_axis0 m) = Np.ncols m.
Proof.
  unfold Np.mean_axis0, Np.transpose.
  by rewrite length_fmap, length_from_columns.
Qed.

Lemma length_range_axis0 m : length (range_axis0 m) = Np.ncols m.
Proof.
  unfold range_axis0, Np.transpose.
  rewrite length_zip_with, !length_fmap, length_from_columns. lia.
Qed.

(** [center] on an array with at least one row: the same reference comes
    back and the object holds the rescaled rows, cast to its element
    type. *)
Lemma center_spec (E : Env) (l : loc) (d : Np.dtype) (m : matrix)
    (σ : state (Rng E)) :
  heap σ !! l = Some (Array d m) → m ≠ [] →
  Forall (λ row : vector, length row = Np.ncols m) m →
  center E l σ =
  Ok ((l, Np.mean_axis0 m, range_axis0 m),
      State (<[l := Array d (centered_rows d m)]> (heap σ)) (rng σ)).
Proof.
  intros Hl Hne Hrect. unfold center.
  rewrite (M_bind_ok _ _ _ m σ) by (unfold load; by rewrite Hl).
  rewrite (M_bind_ok _ _ _ (Np.maximum <$> Np.transpose m) σ)
    by (apply lift_ok; by destruct m).
  rewrite (M_bind_ok _ _ _ (Np.minimum <$> Np.transpose m) σ)
    by (apply lift_ok; by destruct m).
  rewrite (M_bind_ok _ _ _ (range_axis0 m) σ); cycle 1.
  { apply lift_ok, broadcast_same_length. by rewrite !length_fmap. }
  erewrite M_bind_ok; cycle 1.
  { apply (center_loop_spec E l d _ _ (Np.ncols m) (length_mean_axis0 m)
             (length_range_axis0 m) m [] σ); done. }
  reflexivity.
Qed.

(** A float array keeps the rescaled rows as they are. *)
Lemma centered_rows_float (m : matrix) :
  centered_rows Np.Float64 m =
  scale_row (Np.mean_axis0 m) (range_axis0 m) <$> m.
Proof.
  unfold centered_rows. apply list_fmap_ext. intros _ row _.
  cbn [Np.cast]. apply list_fmap_id.
Qed.

Lemma length_centered_rows d (m : matrix) :
  length (centered_rows d m) = length m.
Proof. unfold centered_rows. by rewrite length_fmap. Qed.

(** An array without rows is refused by the reduction. *)
Lemma center_empty (E : Env) (l : loc) d (σ : state (Rng E)) :
  heap σ !! l = Some (Array d []) → center E l σ = Raise ValueError.
Proof.
  intros Hl. unfold center.
  rewrite (M_bind_ok _ _ _ [] σ) by (unfold load; by rewrite Hl).
  reflexivity.
Qed.

Lemma qmax_ge_l x y : x ≤ Np.qmax x y.
Proof. unfold Np.qmax. case_decide; [done|apply Qcle_refl]. Qed.

Lemma qmax_ge_r x y : y ≤ Np.qmax x y.
Proof.
  unfold Np.qmax. case_decide; [apply Qcle_refl|].
  by apply Qclt_le_weak, Qcnot_le_lt.
Qed.

Lemma qmin_le_l x y : Np.qmin x y ≤ x.
Proof.
  unfold Np.qmin. case_decide; [apply Qcle_refl|].
  by apply Qclt_le_weak, Qcnot_le_lt.
Qed.

Lemma qmin_le_r x y : Np.qmin x y ≤ y.
Proof. unfold Np.qmin. case_decide; [done|apply Qcle_refl]. Qed.

Lemma foldr_qmax_ge x0 (a : vector) x :
  x = x0 ∨ x ∈ a → x ≤ foldr Np.qmax x0 a.
Proof.
  induction a as [|y a IH]; cbn [foldr].
  - intros [->|H]; [apply Qcle_refl|by apply elem_of_nil in H].
  - intros [->|[->|H]%elem_of_cons].
    + eapply Qcle_trans; [apply IH; by left|apply qmax_ge_r].
    + apply qmax_ge_l.
    + eapply Qcle_trans; [apply IH; by right|apply qmax_ge_r].
Qed.

Lemma foldr_qmin_le x0 (a : vector) x :
  x = x0 ∨ x ∈ a → foldr Np.qmin x0 a ≤ x.
Proof.
  induction a as [|y a IH]; cbn [foldr].
  - intros [->|H]; [apply Qcle_refl|by apply elem_of_nil in H].
  - intros [->|[->|H]%elem_of_cons].
    + eapply Qcle_trans; [apply qmin_le_r|apply IH; by left].
    + apply qmin_le_l.
    + eapply Qcle_trans; [apply qmin_le_r|apply IH; by right].
Qed.

Lemma maximum_ge (a : vector) x : x ∈ a → x ≤ Np.maximum a.
Proof.
  destruct a as [|x0 a]; [by intros ?%elem_of_nil|].
  intros [->|H]%elem_of_cons; apply foldr_qmax_ge; auto.
Qed.

Lemma minimum_le (a : vector) x : x ∈ a → Np.minimum a ≤ x.
Proof.
  destruct a as [|x0 a]; [by intros ?%elem_of_nil|].
  intros [->|H]%elem_of_cons; apply foldr_qmin_le; auto.
Qed.

(** A column with two different values has a range that is not zero. *)
Lemma varies_range (col : vector) :
  varies col → Np.maximum col - Np.minimum col ≠ 0.
Proof.
  intros (a & b & Ha & Hb & Hab) Hz. apply Hab.
  assert (Np.maximum col = Np.minimum col) as Heq.
  { rewrite <- (Qcplus_0_l (Np.minimum col)), <- Hz. ring. }
  assert (∀ x, x ∈ col → x = Np.minimum col) as Hall.
  { intros x Hx. apply Qcle_antisym; [|by apply minimum_le].
    rewrite <- Heq. by apply maximum_ge. }
  by rewrite (Hall a Ha), (Hall b Hb).
Qed.

Lemma scale_row_entries (f g r : nat → Qc) k :
  scale_row (f <$> seq 0 k) (g <$> seq 0 k) (r <$> seq 0 k) =
  (λ j, (r j - f j) / g j) <$> seq 0 k.
Proof. unfold scale_row. by rewrite !zip_with_fmap_seq. Qed.

Lemma unscale_row_entries (f g r : nat → Qc) k :
  unscale_row (f <$> seq 0 k) (g <$> seq 0 k) (r <$> seq 0 k) =
  (λ j, r j * g j + f j) <$> seq 0 k.
Proof. unfold unscale_row. by rewrite !zip_with_fmap_seq. Qed.

(** The inverse affine map undoes the scaling of a row when no divisor is
    zero. *)
Lemma unscale_scale_row (m_mean divisor row : vector) :
  length m_mean = length row → length divisor = length row →
  Forall (λ d, d ≠ 0) divisor →
  unscale_row m_mean divisor (scale_row m_mean divisor row) = row.
Proof.
  intros Hm Hd Hnz.
  rewrite (vector_entries row _ eq_refl) at 2.
  rewrite (vector_entries row _ eq_refl) at 1.
  rewrite (vector_entries m_mean _ Hm), (vector_entries divisor _ Hd).
  rewrite scale_row_entries, unscale_row_entries.
  apply list_fmap_ext. intros i j [-> Hj]%lookup_seq. cbn [Nat.add].
  assert (default 0 (divisor !! i) ≠ 0) as Hdj.
  { rewrite <- Hd in Hj. apply lookup_lt_is_Some in Hj as [d Hdj].
    rewrite Hdj. cbn. by eapply (Forall_lookup_1 _ _ _ _ Hnz). }
  field. exact Hdj.
Qed.

Lemma range_axis0_columns (m : matrix) :
  range_axis0 m =
  (λ j, Np.maximum (column j m) - Np.minimum (column j m))
    <$> seq 0 (Np.ncols m).
Proof.
  unfold range_axis0. rewrite transpose_columns, <- !list_fmap_compose.
  by rewrite zip_with_fmap_seq.
Qed.

Lemma mean_axis0_columns (m : matrix) :
  Np.mean_axis0 m = (λ j, Np.mean (column j m)) <$> seq 0 (Np.ncols m).
Proof.
  unfold Np.mean_axis0. by rewrite transpose_columns, <- list_fmap_compose.
Qed.

Lemma range_axis0_nonzero (m : matrix) :
  (∀ j, (j < Np.ncols m)%nat → varies (column j m)) →
  Forall (λ d, d ≠ 0) (range_axis0 m).
Proof.
  intros Hv. rewrite range_axis0_columns. apply Forall_fmap, Forall_forall.
  intros j [_ Hj]%elem_of_seq. cbn. by apply varies_range, Hv.
Qed.

(** For a float array with at least one row in which every column takes
    two different values, [center] computes the mean and the range
    (maximum minus minimum) of each column, replaces every row by
    [(row - mean) / range], and the inverse affine map
    [scaled * range + mean] gives back the original array (exactly over
    the rationals). *)
Theorem scaler_round_trip (E : Env) (l : loc) (m : matrix)
    (σ : state (Rng E)) :
  heap σ !! l = Some (Array Np.Float64 m) → m ≠ [] →
  Forall (λ row : vector, length row = Np.ncols m) m →
  (∀ j, (j < Np.ncols m)%nat → varies (column j m)) →
  ∃ scaled m_mean divisor σ',
    center E l σ = Ok ((l, m_mean, divisor), σ')
    ∧ heap σ' !! l = Some (Array Np.Float64 scaled)
    ∧ m_mean = (λ j, Np.mean (column j m)) <$> seq 0 (Np.ncols m)
    ∧ divisor = (λ j, Np.maximum (column j m) - Np.minimum (column j m))
                  <$> seq 0 (Np.ncols m)
    ∧ scaled = scale_row m_mean divisor <$> m
    ∧ unscale_row m_mean divisor <$> scaled = m.
Proof.
  intros Hl Hne Hrect Hv.
  eexists _, _, _, _. split; [by apply center_spec|].
  cbn [heap]. split.
  { rewrite centered_rows_float.
    apply list_lookup_insert_eq. by eapply lookup_lt_Some. }
  split; [apply mean_axis0_columns|]. split; [apply range_axis0_columns|].
  split; [done|].
  rewrite <- list_fmap_compose.
  transitivity (id <$> m); [|apply list_fmap_id].
  apply list_fmap_ext. intros i row Hrow. cbn.
  assert (length row = Np.ncols m) as Hr
    by (by eapply (Forall_lookup_1 _ _ _ _ Hrect)).
  apply unscale_scale_row.
  - by rewrite length_mean_axis0.
  - by rewrite length_range_axis0.
  - by apply range_axis0_nonzero.
Qed.

Lemma sample_matrix_varies j :
  (j < Np.ncols sample_matrix)%nat → varies (column j sample_matrix).
Proof.
  intros Hj. destruct j as [|[|j]]; [| |cbn in Hj; lia].
  - exists (qz 1), (qz 2). cbn. split; [left|]. split; [right; left|].
    apply (bool_decide_unpack _). vm_compute. exact I.
  - exists (qz 3), (qz 5). cbn. split; [left|]. split; [right; left|].
    apply (bool_decide_unpack _). vm_compute. exact I.
Defined.

Lemma scaler_round_trip_witness :
  ∃ scaled m_mean divisor σ',
    center probe 0%nat sample_state = Ok ((0%nat, m_mean, divisor), σ')
    ∧ heap σ' !! 0%nat = Some (Array Np.Float64 scaled)
    ∧ m_mean = (λ j, Np.mean (column j sample_matrix))
                 <$> seq 0 (Np.ncols sample_matrix)
    ∧ divisor = (λ j, Np.maximum (column j sample_matrix)
                      - Np.minimum (column j sample_matrix))
                  <$> seq 0 (Np.ncols sample_matrix)
    ∧ scaled = scale_row m_mean divisor <$> sample_matrix
    ∧ unscale_row m_mean divisor <$> scaled = sample_matrix.
Proof.
  apply (scaler_round_trip probe 0%nat sample_matrix sample_state).
  - reflexivity.
  - discriminate.
  - repeat constructor.
  - exact sample_matrix_varies.
Defined.

Example center_sample :
  center probe 0%nat sample_state =
  Ok ((0%nat, [Q2Qc (3 # 2); qz 4], [qz 1; qz 2]),
      State [Array Np.Float64
               [[Q2Qc (-1 # 2); Q2Qc (-1 # 2)]; [Q2Qc (1 # 2); Q2Qc (1 # 2)]]]
        tt).
Proof.
  rewrite (center_spec probe 0%nat Np.Float64 sample_matrix);
    [|reflexivity|discriminate|repeat constructor].
  cbn [heap rng sample_state]. repeat f_equal;
    apply (bool_decide_unpack _); vm_compute; exact I.
Qed.

(** The reference [center] returns is its argument, whatever the array. *)
Lemma center_returns_argument (E : Env) (l l' : loc) m_mean divisor
    (σ σ' : state (Rng E)) :
  center E l σ = Ok ((l', m_mean, divisor), σ') → l' = l.
Proof.
  unfold center. rewrite !M_bind_unfold.
  destruct (load l σ) as [[m σ1]|]; [|done]. rewrite !M_bind_unfold.
  destruct (lift (Np.max_axis0 m) σ1) as [[mx σ2]|]; [|done].
  rewrite !M_bind_unfold.
  destruct (lift (Np.min_axis0 m) σ2) as [[mn σ3]|]; [|done].
  rewrite !M_bind_unfold.
  destruct (lift (Np.sub mx mn) σ3) as [[d σ4]|]; [|done].
  rewrite !M_bind_unfold.
  destruct (for_eachM _ _ σ4) as [[[] σ5]|]; [|done].
  unfold mret, M_ret. congruence.
Qed.

(** ** Rows of the model matrix *)

Lemma product_at_observation dp c i :
  product_at dp c i =
  foldr (λ j acc, default 0 (observation dp i !! j) * acc) 1 c.
Proof.
  unfold product_at. induction c as [|j c IH]; [done|].
  cbn [foldr]. rewrite IH. f_equal.
  unfold observation. rewrite list_lookup_fmap.
  by destruct (dp !! j).
Qed.

Lemma expected_columns_no_intercept dp n n_pol :
  expected_columns dp n n_pol false =
  product_column dp n <$>
    (d ← seq 1 n_pol; sorted_combinations (length dp) d).
Proof. unfold expected_columns. cbn [app]. symmetry. apply fmap_bind_list. Qed.

Lemma sorted_combinations_one k : (1 ≤ k)%nat → [0%nat] ∈ sorted_combinations k 1.
Proof.
  intros Hk. unfold sorted_combinations. apply list_elem_of_filter.
  split; [repeat constructor|].
  cbn [all_tuples]. apply list_elem_of_bind. exists 0%nat.
  split; [cbn; left|]. apply elem_of_seq. lia.
Qed.

Lemma combinations_nonempty k n_pol :
  (1 ≤ k)%nat → (1 ≤ n_pol)%nat →
  (d ← seq 1 n_pol; sorted_combinations k d) ≠ [].
Proof.
  intros Hk Hn Hnil.
  assert ([0%nat] ∈ (d ← seq 1 n_pol; sorted_combinations k d)) as H.
  { apply list_elem_of_bind. exists 1%nat.
    split; [by apply sorted_combinations_one|]. apply elem_of_seq. lia. }
  rewrite Hnil in H. by apply elem_of_nil in H.
Qed.

Section model_rows.
Context (dp : list vector) (n : nat) (n_pol : nat).
Hypothesis Hfeatures : (1 ≤ length dp)%nat.
Hypothesis Hdegree : (1 ≤ n_pol)%nat.

Let X := matrix_of_columns n (expected_columns dp n n_pol false).
Let K := length (d ← seq 1 n_pol; sorted_combinations (length dp) d).

Lemma model_matrix_from_columns :
  X = Np.from_columns n (expected_columns dp n n_pol false).
Proof.
  subst X. unfold matrix_of_columns.
  destruct (expected_columns dp n n_pol false) eqn:Hc; [|done].
  rewrite expected_columns_no_intercept in Hc.
  apply fmap_nil_inv in Hc. by apply combinations_nonempty in Hc.
Qed.

Lemma model_matrix_length : length X = n.
Proof. rewrite model_matrix_from_columns. apply length_from_columns. Qed.

Lemma model_matrix_rows : Forall (λ row : vector, length row = K) X.
Proof.
  rewrite model_matrix_from_columns.
  eapply Forall_impl; [apply from_columns_rows|]. intros row ->.
  subst K. cbn beta.
  rewrite expected_columns_no_intercept. by rewrite length_fmap.
Qed.

Lemma model_matrix_ncols : (1 ≤ n)%nat → Np.ncols X = K.
Proof.
  intros Hn. pose proof model_matrix_rows as Hr.
  pose proof model_matrix_length as Hl.
  destruct X as [|row rest]; [cbn in Hl; lia|].
  rewrite ncols_cons. by inversion Hr.
Qed.

(** Row [i] of the model matrix is made of observation [i] alone. *)
Lemma model_matrix_row i :
  (i < n)%nat → X !! i = Some (polynomial_row n_pol (observation dp i)).
Proof.
  intros Hi. rewrite model_matrix_from_columns. unfold Np.from_columns.
  rewrite list_lookup_fmap, lookup_seq_lt by done.
  cbn [fmap option_fmap option_map Nat.add]. f_equal.
  rewrite expected_columns_no_intercept, <- list_fmap_compose.
  unfold polynomial_row, observation at 2. rewrite length_fmap.
  apply list_fmap_ext. intros _ c _. unfold compose.
  unfold product_column. rewrite list_lookup_fmap, lookup_seq_lt by done.
  cbn [fmap option_fmap option_map Nat.add default]. 
  apply product_at_observation.
Qed.

End model_rows.

(** ** The dispatcher with [fit_intercept] *)

Lemma length_scale_row (m_mean divisor row : vector) k :
  length m_mean = k → length divisor = k → length row = k →
  length (scale_row m_mean divisor row) = k.
Proof. intros. unfold scale_row. rewrite !length_zip_with. lia. Qed.

Lemma rows_sub_ok (m : matrix) (v : vector) :
  Forall (λ row : vector, length row = length v) m →
  Np.rows_sub m v = Ok ((λ row, zip_with Qcminus row v) <$> m).
Proof.
  intros H. unfold Np.rows_sub. apply mapM_ok.
  eapply Forall_impl; [exact H|]. intros row Hrow.
  by apply broadcast_same_length.
Qed.

Lemma rows_div_ok (m : matrix) (v : vector) :
  Forall (λ row : vector, length row = length v) m →
  Np.rows_div m v = Ok ((λ row, zip_with Qcdiv row v) <$> m).
Proof.
  intros H. unfold Np.rows_div. apply mapM_ok.
  eapply Forall_impl; [exact H|]. intros row Hrow.
  by apply broadcast_same_length.
Qed.

Lemma get_prediction_ok (m : matrix) (beta : vector) c :
  Forall (λ row : vector, length row = length beta) m →
  get_prediction m beta c = Ok ((λ row, Np.dot row beta + c) <$> m).
Proof.
  intros H. unfold get_prediction. rewrite matvec_ok by done.
  cbn [mbind result_bind]. unfold mat_vec.
  by rewrite <- list_fmap_compose.
Qed.

Lemma centered_rows_lengths d (m : matrix) :
  Forall (λ row : vector, length row = Np.ncols m) m →
  Forall (λ row : vector, length row = Np.ncols m) (centered_rows d m).
Proof.
  intros Hrect. unfold centered_rows. apply Forall_fmap.
  eapply Forall_impl; [exact Hrect|]. intros row Hrow. cbn.
  rewrite length_fmap.
  apply length_scale_row;
    [apply length_mean_axis0|apply length_range_axis0|done].
Qed.

(** The array object made for a matrix and then centered: the one new
    object of the store, holding the rescaled rows. *)
Lemma alloc_center E d (m : matrix) (σ : state (Rng E)) :
  m ≠ [] → Forall (λ row : vector, length row = Np.ncols m) m →
  (alloc d m ≫= center E) σ =
  Ok ((length (heap σ), Np.mean_axis0 m, range_axis0 m),
      State (heap σ ++ [Array d (centered_rows d m)]) (rng σ)).
Proof.
  intros Hne Hrect. rewrite M_bind_unfold. unfold alloc.
  rewrite (center_spec E _ d m); [|cbn [heap]|done|done].
  - cbn [heap rng]. do 3 f_equal.
    rewrite insert_app_r_alt by done. by rewrite Nat.sub_diag.
  - by rewrite list_lookup_middle.
Qed.

Section fit_intercept.
Context (E : Env) (type : tag) (params : gmap string value).
Context (train_data test_data : data) (n_pol : value).
Context (σ σ2 : state (Rng E)) (X Xt : matrix) (beta : vector).

Let d := inputs_dtype train_data.
Let m_mean := Np.mean_axis0 X.
Let divisor := range_axis0 X.
Let centered := centered_rows d X.
Let intercept := Np.mean (targets train_data).

Hypothesis Hfit : ∃ v, params !! "fit_intercept" = Some v ∧ truthy v = true.
Hypothesis Htrain :
  get_model_matrix (inputs train_data) n_pol false = Ok X.
Hypothesis Hrows : X ≠ [].
Hypothesis Hrect : Forall (λ row : vector, length row = Np.ncols X) X.
Hypothesis Hbeta :
  get_beta E type centered (targets train_data) params
    (State (heap σ ++ [Array d centered]) (rng σ)) = Ok (beta, σ2).
Hypothesis Hlen : length beta = Np.ncols X.
Hypothesis Htest :
  get_model_matrix (inputs test_data) n_pol false = Ok Xt.
Hypothesis Htest_rect :
  Forall (λ row : vector, length row = Np.ncols X) Xt.

(** Lines 140-157, evaluated: the train prediction is made from the rows
    the array object holds after [center], the test prediction from the
    test rows rescaled with the mean and range of the train matrix. *)
Lemma regressor_fit_intercept_eval :
  regressor E type params train_data test_data n_pol σ =
  Ok (((λ row, Np.dot row beta + intercept) <$> centered,
       predict_row m_mean divisor beta intercept <$> Xt), σ2).
Proof.
  destruct Hfit as (v & Hv & Htrue). unfold regressor.
  rewrite (M_bind_ok _ _ _ v σ) by (apply lift_ok; unfold getitem; by rewrite Hv).
  rewrite Htrue.
  rewrite (M_bind_ok _ _ _ X σ) by (by apply lift_ok).
  pose proof (alloc_center E d X σ Hrows Hrect) as Hc.
  rewrite M_bind_unfold in Hc. rewrite M_bind_unfold.
  cbn [model_matrix_dtype]. fold d.
  destruct (alloc d X σ) as [[l σa]|] eqn:Ha; [|done].
  rewrite M_bind_unfold, Hc.
  fold m_mean divisor centered.
  rewrite (M_bind_ok _ _ _ centered
             (State (heap σ ++ [Array d centered]) (rng σ))); cycle 1.
  { unfold load. cbn [heap]. by rewrite list_lookup_middle. }
  rewrite (M_bind_ok _ _ _ _ _ Hbeta).
  assert (length m_mean = Np.ncols X) as Hm by apply length_mean_axis0.
  assert (length divisor = Np.ncols X) as Hd by apply length_range_axis0.
  erewrite M_bind_ok; cycle 1.
  { apply lift_ok, get_prediction_ok. rewrite Hlen.
    by apply centered_rows_lengths. }
  erewrite M_bind_ok by (by apply lift_ok).
  erewrite M_bind_ok; cycle 1.
  { apply lift_ok, rows_sub_ok. by rewrite Hm. }
  erewrite M_bind_ok; cycle 1.
  { apply lift_ok, rows_div_ok. apply Forall_fmap.
    eapply Forall_impl; [exact Htest_rect|]. intros row Hrow.
    cbn beta in Hrow. cbn. rewrite length_zip_with. lia. }
  erewrite M_bind_ok; cycle 1.
  { apply lift_ok, get_prediction_ok. rewrite <- list_fmap_compose.
    apply Forall_fmap. eapply Forall_impl; [exact Htest_rect|].
    intros row Hrow. cbn beta in Hrow. cbn.
    rewrite !length_zip_with. lia. }
  unfold mret, M_ret.
  by rewrite <- !list_fmap_compose.
Qed.

End fit_intercept.

Section train_scaling.
Context (E : Env) (type : tag) (params : gmap string value).
Context (train_data : data) (n : nat) (z : Z).
Context (σ σ2 : state (Rng E)) (beta : vector).

Let d := inputs_dtype train_data.
Let X := design_matrix (inputs train_data) n z.
Let m_mean := Np.mean_axis0 X.
Let divisor := range_axis0 X.
Let centered := centered_rows d X.
Let intercept := Np.mean (targets train_data).

Hypothesis Hfit : ∃ v, params !! "fit_intercept" = Some v ∧ truthy v = true.
Hypothesis Hlengths : Forall (λ x : vector, length x = n) (inputs train_data).
Hypothesis Hfeatures : (2 ≤ length (inputs train_data))%nat.
Hypothesis Hobservations : (1 ≤ n)%nat.
Hypothesis Hdegree : (1 ≤ z)%Z.

Lemma train_matrix_built :
  get_model_matrix (inputs train_data) (PyInt z) false = Ok X.
Proof. apply get_model_matrix_expected; auto. Qed.

Lemma train_matrix_rows : X ≠ [].
Proof.
  intros HX0.
  pose proof (model_matrix_length (inputs train_data) n (Z.to_nat z)
                ltac:(lia) ltac:(lia)) as Hl.
  fold (design_matrix (inputs train_data) n z) in Hl. fold X in Hl.
  rewrite HX0 in Hl. cbn in Hl. lia.
Qed.

Lemma train_matrix_rectangular :
  Forall (λ row : vector, length row = Np.ncols X) X.
Proof.
  subst X. unfold design_matrix.
  rewrite model_matrix_ncols by lia. apply model_matrix_rows; lia.
Qed.

(** After line 145 the store has one new object, at the reference of the
    train model matrix, and it holds the rescaled rows. *)
Lemma train_matrix_centered :
  (alloc d X ≫= center E) σ =
  Ok ((length (heap σ), m_mean, divisor),
      State (heap σ ++ [Array d centered]) (rng σ)).
Proof.
  apply alloc_center;
    [apply train_matrix_rows|apply train_matrix_rectangular].
Qed.

Hypothesis Hbeta :
  get_beta E type centered (targets train_data) params
    (State (heap σ ++ [Array d centered]) (rng σ)) = Ok (beta, σ2).
Hypothesis Hlen : length beta = Np.ncols X.

Lemma regressor_fit_intercept_features (test_data : data) (n' : nat) :
  Forall (λ x : vector, length x = n') (inputs test_data) →
  length (inputs test_data) = length (inputs train_data) →
  get_model_matrix (inputs test_data) (PyInt z) false =
    Ok (design_matrix (inputs test_data) n' z)
  ∧ regressor E type params train_data test_data (PyInt z) σ =
    Ok (((λ row, Np.dot row beta + intercept) <$> centered,
         predict_row m_mean divisor beta intercept <$>
           design_matrix (inputs test_data) n' z), σ2).
Proof.
  intros Htest Hsame.
  assert (get_model_matrix (inputs test_data) (PyInt z) false =
          Ok (design_matrix (inputs test_data) n' z)) as HXt
    by (apply get_model_matrix_expected; [done|left; lia]).
  split; [done|].
  apply regressor_fit_intercept_eval; try done.
  - apply train_matrix_built.
  - apply train_matrix_rows.
  - apply train_matrix_rectangular.
  - subst X. unfold design_matrix.
    rewrite model_matrix_ncols by lia. rewrite <- Hsame.
    apply model_matrix_rows; lia.
Qed.

End train_scaling.

Lemma predict_row_centered (m : matrix) (beta : vector) (c : Qc) :
  (λ row, Np.dot row beta + c) <$> centered_rows Np.Float64 m =
  predict_row (Np.mean_axis0 m) (range_axis0 m) beta c <$> m.
Proof.
  by rewrite centered_rows_float, <- list_fmap_compose.
Qed.

(** With [fit_intercept] set, on float train features of one length whose
    model matrix has no constant column and a fit that succeeds with a
    vector of the right length, [regressor] returns for the train rows and
    for the test rows the rescaled row times [beta] plus the mean of the
    train targets, the rescaling being done with the mean and the range of
    the train matrix in both cases.  Hence two test sets that agree on one
    observation give that observation the same prediction, whatever their
    other observations are. *)
Theorem fit_intercept_replays_train_scaling
    (E : Env) (type : tag) (params : gmap string value) (train_data : data)
    (n : nat) (z : Z) (σ σ2 : state (Rng E)) (beta : vector) :
  let X := design_matrix (inputs train_data) n z in
  let m_mean := Np.mean_axis0 X in
  let divisor := range_axis0 X in
  let centered := scale_row m_mean divisor <$> X in
  let predict :=
    predict_row m_mean divisor beta (Np.mean (targets train_data)) in
  inputs_dtype train_data = Np.Float64 →
  (∃ v, params !! "fit_intercept" = Some v ∧ truthy v = true) →
  Forall (λ x : vector, length x = n) (inputs train_data) →
  (2 ≤ length (inputs train_data))%nat → (1 ≤ n)%nat → (1 ≤ z)%Z →
  (∀ j, (j < Np.ncols X)%nat → varies (column j X)) →
  get_beta E type centered (targets train_data) params
    (State (heap σ ++ [Array Np.Float64 centered]) (rng σ)) = Ok (beta, σ2) →
  length beta = Np.ncols X →
  (∀ test_data n',
     Forall (λ x : vector, length x = n') (inputs test_data) →
     length (inputs test_data) = length (inputs train_data) →
     get_model_matrix (inputs train_data) (PyInt z) false = Ok X
     ∧ get_model_matrix (inputs test_data) (PyInt z) false =
       Ok (design_matrix (inputs test_data) n' z)
     ∧ regressor E type params train_data test_data (PyInt z) σ =
       Ok ((predict <$> X,
            predict <$> design_matrix (inputs test_data) n' z), σ2))
  ∧ (∀ test1 test2 n1 n2 i1 i2,
       Forall (λ x : vector, length x = n1) (inputs test1) →
       Forall (λ x : vector, length x = n2) (inputs test2) →
       length (inputs test1) = length (inputs train_data) →
       length (inputs test2) = length (inputs train_data) →
       (i1 < n1)%nat → (i2 < n2)%nat →
       observation (inputs test1) i1 = observation (inputs test2) i2 →
       ∃ train1 pred1 train2 pred2 y,
         regressor E type params train_data test1 (PyInt z) σ
         = Ok ((train1, pred1), σ2)
         ∧ regressor E type params train_data test2 (PyInt z) σ
           = Ok ((train2, pred2), σ2)
         ∧ pred1 !! i1 = Some y ∧ pred2 !! i2 = Some y
         ∧ y = predict (polynomial_row (Z.to_nat z)
                          (observation (inputs test1) i1))).
Proof.
  intros X m_mean divisor centered predict Hfloat Hfit Hlengths Hfeatures
    Hn Hz _ Hbeta Hlen.
  assert (centered_rows (inputs_dtype train_data) X = centered) as Hc
    by (rewrite Hfloat; apply centered_rows_float).
  assert (∀ test_data n',
     Forall (λ x : vector, length x = n') (inputs test_data) →
     length (inputs test_data) = length (inputs train_data) →
     get_model_matrix (inputs test_data) (PyInt z) false =
       Ok (design_matrix (inputs test_data) n' z)
     ∧ regressor E type params train_data test_data (PyInt z) σ =
       Ok ((predict <$> X,
            predict <$> design_matrix (inputs test_data) n' z), σ2))
    as Heval.
  { intros test_data n' Htest Hsame.
    destruct (regressor_fit_intercept_features E type params train_data n z
                σ σ2 beta Hfit Hlengths Hfeatures Hn Hz) with test_data n'
      as [HXt Hr]; try done.
    { fold X. rewrite Hc, Hfloat. exact Hbeta. }
    split; [done|]. rewrite Hr. fold X. rewrite Hfloat.
    by rewrite predict_row_centered. }
  split.
  { intros test_data n' Htest Hsame. split.
    - by apply train_matrix_built.
    - by apply Heval. }
  intros test1 test2 n1 n2 i1 i2 H1 H2 Hf1 Hf2 Hi1 Hi2 Hobs.
  destruct (Heval test1 n1 H1 Hf1) as (_ & Hr1).
  destruct (Heval test2 n2 H2 Hf2) as (_ & Hr2).
  eexists _, _, _, _, _. split; [exact Hr1|]. split; [exact Hr2|].
  assert (1 ≤ Z.to_nat z)%nat as Hz' by lia.
  unfold design_matrix. rewrite !list_lookup_fmap.
  rewrite !model_matrix_row by (done || lia).
  rewrite Hobs. done.
Qed.

Lemma sample_design_varies j :
  let X := design_matrix (inputs sample_data) 3 1 in
  (j < Np.ncols X)%nat → varies (column j X).
Proof.
  intros X Hj.
  assert (X = [[qz 1; qz 3]; [qz 2; qz 5]; [qz 4; qz 4]]) as ->
    by (apply (bool_decide_unpack _); vm_compute; exact I).
  destruct j as [|[|j]]; [| |cbn in Hj; lia].
  - exists (qz 1), (qz 2). cbn. split; [left|]. split; [right; left|].
    apply (bool_decide_unpack _). vm_compute. exact I.
  - exists (qz 3), (qz 5). cbn. split; [left|]. split; [right; left|].
    apply (bool_decide_unpack _). vm_compute. exact I.
Defined.

Lemma fit_intercept_replays_train_scaling_witness :
  let X := design_matrix (inputs sample_data) 3 1 in
  let predict :=
    predict_row (Np.mean_axis0 X) (range_axis0 X) sample_beta
      (Np.mean (targets sample_data)) in
  get_model_matrix (inputs sample_data) (PyInt 1) false = Ok X
  ∧ get_model_matrix (inputs sample_test) (PyInt 1) false =
    Ok (design_matrix (inputs sample_test) 2 1)
  ∧ regressor probe (Member OLS) (sample_parameters true) sample_data
      sample_test (PyInt 1) probe_state =
    Ok ((predict <$> X, predict <$> design_matrix (inputs sample_test) 2 1),
        sample_final).
Proof.
  intros X predict.
  apply (proj1 (fit_intercept_replays_train_scaling probe (Member OLS)
                  (sample_parameters true) sample_data 3 1 probe_state
                  sample_final sample_beta eq_refl
                  (ex_intro _ (PyBool true) (conj eq_refl eq_refl))
                  ltac:(repeat constructor) ltac:(cbn; lia) ltac:(lia)
                  ltac:(lia) sample_design_varies
                  ltac:(vm_compute; reflexivity)
                  ltac:(vm_compute; reflexivity)) sample_test 2%nat).
  - repeat constructor.
  - reflexivity.
Defined.

(** C10.  [center] returns the reference it was given.  For an array with
    at least one row the object behind that reference is overwritten: it
    keeps its element type and its shape, every other object and the
    random source are untouched and no object is added, and, when no
    column is constant, its rows are the rescaled rows cast to its element
    type.  In [regressor] the object made for the train model matrix is
    that object: after line 145 it is the one new object of the store and
    holds the rescaled rows, and the fit and the train prediction are made
    from these rows. *)
Theorem center_mutates_in_place (E : Env) :
  (∀ (l l' : loc) m_mean divisor (σ σ' : state (Rng E)),
     center E l σ = Ok ((l', m_mean, divisor), σ') → l' = l)
  ∧ (∀ (l : loc) (d : Np.dtype) (m : matrix) (σ : state (Rng E)),
       heap σ !! l = Some (Array d m) → m ≠ [] →
       Forall (λ row : vector, length row = Np.ncols m) m →
       ∃ stored σ',
         center E l σ = Ok ((l, Np.mean_axis0 m, range_axis0 m), σ')
         ∧ heap σ' = <[l := Array d stored]> (heap σ)
         ∧ heap σ' !! l = Some (Array d stored)
         ∧ length stored = length m
         ∧ Forall (λ row : vector, length row = Np.ncols m) stored
         ∧ (∀ l', l' ≠ l → heap σ' !! l' = heap σ !! l')
         ∧ rng σ' = rng σ
         ∧ ((∀ j, (j < Np.ncols m)%nat → varies (column j m)) →
            stored = centered_rows d m))
  ∧ (∀ type params train_data n z (σ : state (Rng E)),
       let d := inputs_dtype train_data in
       let X := design_matrix (inputs train_data) n z in
       let centered := centered_rows d X in
       let after := State (heap σ ++ [Array d centered]) (rng σ) in
       (∃ v, params !! "fit_intercept" = Some v ∧ truthy v = true) →
       Forall (λ x : vector, length x = n) (inputs train_data) →
       (2 ≤ length (inputs train_data))%nat → (1 ≤ n)%nat → (1 ≤ z)%Z →
       (∀ j, (j < Np.ncols X)%nat → varies (column j X)) →
       get_model_matrix (inputs train_data) (PyInt z) false = Ok X
       ∧ (alloc d X ≫= center E) σ =
         Ok ((length (heap σ), Np.mean_axis0 X, range_axis0 X), after)
       ∧ ∀ test_data n' beta σ2,
           get_beta E type centered (targets train_data) params after
           = Ok (beta, σ2) →
           length beta = Np.ncols X →
           Forall (λ x : vector, length x = n') (inputs test_data) →
           length (inputs test_data) = length (inputs train_data) →
           ∃ test_prediction,
             regressor E type params train_data test_data (PyInt z) σ =
             Ok (((λ row, Np.dot row beta + Np.mean (targets train_data))
                    <$> centered, test_prediction), σ2)).
Proof.
  split; [|split].
  - intros l l' m_mean divisor σ σ'. apply center_returns_argument.
  - intros l d m σ Hl Hne Hrect. eexists _, _.
    split; [by apply center_spec|]. cbn [heap rng].
    assert (l < length (heap σ))%nat as Hlt by (by eapply lookup_lt_Some).
    split; [done|]. split; [by apply list_lookup_insert_eq|].
    split; [apply length_centered_rows|].
    split; [by apply centered_rows_lengths|].
    split; [|done]. intros l' Hl'. by apply list_lookup_insert_ne.
  - intros type params train_data n z σ d X centered after
      Hfit Hlengths Hfeatures Hn Hz _.
    split; [by apply train_matrix_built|].
    split; [by apply train_matrix_centered|].
    intros test_data n' beta σ2 Hbeta Hlen Htest Hsame.
    destruct (regressor_fit_intercept_features E type params train_data n z
                σ σ2 beta Hfit Hlengths Hfeatures Hn Hz Hbeta Hlen
                test_data n' Htest Hsame) as (_ & Hr).
    eexists. exact Hr.
Qed.

Lemma center_mutates_in_place_witness :
  ∃ stored σ',
    center probe 0%nat sample_integer_state =
    Ok ((0%nat, Np.mean_axis0 sample_matrix, range_axis0 sample_matrix), σ')
    ∧ heap σ' = <[0%nat := Array Np.Int64 stored]> (heap sample_integer_state)
    ∧ heap σ' !! 0%nat = Some (Array Np.Int64 stored)
    ∧ length stored = length sample_matrix
    ∧ Forall (λ row : vector, length row = Np.ncols sample_matrix) stored
    ∧ (∀ l', l' ≠ 0%nat → heap σ' !! l' = heap sample_integer_state !! l')
    ∧ rng σ' = rng sample_integer_state
    ∧ ((∀ j, (j < Np.ncols sample_matrix)%nat →
             varies (column j sample_matrix)) →
       stored = centered_rows Np.Int64 sample_matrix).
Proof.
  apply (proj1 (proj2 (center_mutates_in_place probe)) 0%nat Np.Int64
           sample_matrix sample_integer_state).
  - reflexivity.
  - discriminate.
  - repeat constructor.
Defined.

Example center_overwrites_sample :
  ∃ σ', (alloc Np.Float64 sample_matrix ≫= center probe) probe_state
        = Ok ((0%nat, [Q2Qc (3 # 2); qz 4], [qz 1; qz 2]), σ')
        ∧ heap σ' !! 0%nat ≠ Some (Array Np.Float64 sample_matrix).
Proof.
  eexists. split.
  - rewrite alloc_center; [|discriminate|repeat constructor].
    cbn [heap rng probe_state]. repeat f_equal;
      apply (bool_decide_unpack _); vm_compute; exact I.
  - cbn [heap app]. intros H. vm_compute in H. discriminate H.
Qed.

(** ** The number of polynomial columns *)

Lemma fact_pred m : (1 ≤ m)%nat → fact m = (m * fact (m - 1))%nat.
Proof.
  intros H. destruct m; [lia|].
  by replace (S m - 1)%nat with m by lia.
Qed.

(** The number of combinations with replacement of [r] out of [n ≥ 1]
    elements is the binomial coefficient of [n + r - 1] over [r]. *)
Lemma cwr_count {A} r : ∀ pool : list A, pool ≠ [] →
  (length (combinations_with_replacement pool r) * fact r
     * fact (length pool - 1) = fact (length pool + r - 1))%nat.
Proof.
  induction r as [|r IHr]; intros pool Hne.
  - cbn [combinations_with_replacement length fact].
    rewrite Nat.add_0_r. lia.
  - induction pool as [|x rest IHp]; [done|].
    rewrite cwr_cons, length_app, length_fmap.
    pose proof (IHr (x :: rest) Hne) as HA. cbn [length] in HA |- *.
    replace (S (length rest) - 1)%nat with (length rest) in HA |- * by lia.
    replace (S (length rest) + r - 1)%nat with (length rest + r)%nat in HA
      by lia.
    replace (S (length rest) + S r - 1)%nat with (S (length rest + r))%nat
      by lia.
    destruct rest as [|y rest'].
    + rewrite cwr_nil. cbn [length fact] in HA |- *.
      rewrite Nat.add_0_r, Nat.add_0_l. cbn [Nat.add] in HA.
      change (fact (S r)) with (S r * fact r)%nat.
      change (fact 1) with 1%nat. nia.
    + assert (y :: rest' ≠ []) as Hne' by done.
      pose proof (IHp Hne') as HB. 
      set (m := length (y :: rest')) in *.
      assert (1 ≤ m)%nat as Hm by (subst m; cbn; lia).
      set (a := length (combinations_with_replacement (x :: y :: rest') r))
        in *.
      set (b := length (combinations_with_replacement (y :: rest') (S r)))
        in *.
      replace (m + S r - 1)%nat with (m + r)%nat in HB by lia.
      rewrite (fact_pred m Hm).
      change (fact (S (m + r))) with (S (m + r) * fact (m + r))%nat.
      change (fact (S r)) with (S r * fact r)%nat in HB |- *.
      rewrite (fact_pred m Hm) in HA.
      nia.
Qed.

Lemma combinations_total k z :
  (1 ≤ k)%nat →
  (S (length (d ← seq 1 z; sorted_combinations k d)) * fact k * fact z
   = fact (k + z))%nat.
Proof.
  intros Hk. induction z as [|z IH].
  - cbn [seq mbind list_bind length fact]. rewrite Nat.add_0_r. lia.
  - rewrite seq_S, bind_app, length_app. cbn [mbind list_bind Nat.add].
    rewrite app_nil_r, <- cwr_indices_sorted_combinations.
    assert (seq 0 k ≠ []) as Hne by (destruct k; [lia|done]).
    pose proof (cwr_count (S z) (seq 0 k) Hne) as Hc.
    rewrite length_seq in Hc.
    replace (k + S z - 1)%nat with (k + z)%nat in Hc by lia.
    set (c := length (combinations_with_replacement (seq 0 k) (S z))) in *.
    set (t := length (seq 1 z ≫= λ d, sorted_combinations k d)) in *.
    replace (k + S z)%nat with (S (k + z)) by lia.
    change (fact (S (k + z))) with (S (k + z) * fact (k + z))%nat.
    change (fact (S z)) with (S z * fact z)%nat in Hc |- *.
    rewrite (fact_pred k Hk). rewrite (fact_pred k Hk) in IH. nia.
Qed.

Lemma length_expected_columns dp n n_pol incl :
  length (expected_columns dp n n_pol incl) =
  ((if incl then 1 else 0)
   + length (d ← seq 1 n_pol; sorted_combinations (length dp) d))%nat.
Proof.
  unfold expected_columns. rewrite length_app, <- fmap_bind_list, length_fmap.
  by destruct incl.
Qed.

(** With the intercept the matrix has one row per observation and, for
    [k] features and degree [z], [(k + z)! / (k! z!)] columns. *)
Theorem model_matrix_shape dp n z :
  Forall (λ x : vector, length x = n) dp →
  (2 ≤ length dp)%nat → (0 ≤ z)%Z →
  ∃ X, get_model_matrix dp (PyInt z) true = Ok X
       ∧ length X = n
       ∧ Forall (λ row : vector,
           (length row * fact (length dp) * fact (Z.to_nat z)
            = fact (length dp + Z.to_nat z))%nat) X.
Proof.
  intros Hlen Hk Hz. eexists. split.
  { apply get_model_matrix_expected; [done|by left]. }
  unfold matrix_of_columns.
  destruct (expected_columns dp n (Z.to_nat z) true) as [|c cols] eqn:Hc.
  { unfold expected_columns in Hc. done. }
  rewrite <- Hc. split; [apply length_from_columns|].
  eapply Forall_impl; [apply from_columns_rows|]. intros row ->.
  cbn beta. rewrite length_expected_columns. cbn [Nat.add].
  apply combinations_total. lia.
Qed.

Lemma model_matrix_shape_witness :
  ∃ X, get_model_matrix (inputs sample_data) (PyInt 2) true = Ok X
       ∧ length X = 3%nat
       ∧ Forall (λ row : vector,
           (length row * fact 2 * fact 2 = fact (2 + 2))%nat) X.
Proof.
  apply (model_matrix_shape (inputs sample_data) 3 2).
  - repeat constructor.
  - cbn. lia.
  - lia.
Defined.

(** ** Edge cases and composition of get_model_matrix *)

Lemma get_model_matrix_first_two_differ_witness :
  get_model_matrix [[qz 1; qz 2]; [qz 3]; [qz 4; qz 5]] (PyInt 1) true
  = Raise AssertionError.
Proof.
  apply (get_model_matrix_first_two_differ [qz 1; qz 2] [qz 3]
           [[qz 4; qz 5]] (PyInt 1) true).
  cbn. lia.
Defined.

(** Without any feature the dimension check has nothing to run on: a
    value that is not an [int] still fails the assertion, the intercept
    then needs [data_points[0]], and without intercept the result is the
    empty array, whatever the degree. *)
Theorem get_model_matrix_no_features :
  (∀ n_pol incl, (∀ z, n_pol ≠ PyInt z) →
     get_model_matrix [] n_pol incl = Raise AssertionError)
  ∧ (∀ z, get_model_matrix [] (PyInt z) true = Raise IndexError)
  ∧ (∀ z, get_model_matrix [] (PyInt z) false = Ok []).
Proof.
  split; [|split].
  - intros n_pol incl Hn. destruct n_pol as [| |z| |]; try done.
    by destruct (Hn z).
  - done.
  - intros z.
    rewrite (get_model_matrix_expected [] 0 z false (Forall_nil_2 _)
               (or_intror (conj eq_refl eq_refl))).
    f_equal. unfold matrix_of_columns. by case_match.
Qed.

Lemma matrix_of_columns_cons n c cols :
  matrix_of_columns n (c :: cols) = Np.from_columns n (c :: cols).
Proof. reflexivity. Qed.

Lemma from_columns_app n (c1 c2 : list vector) :
  Np.from_columns n (c1 ++ c2) =
  zip_with app (Np.from_columns n c1) (Np.from_columns n c2).
Proof.
  unfold Np.from_columns. rewrite zip_with_fmap_seq.
  apply list_fmap_ext. intros _ i _. apply fmap_app.
Qed.

Lemma from_columns_ones_cons n (cols : list vector) :
  Np.from_columns n (replicate n 1 :: cols) =
  cons 1 <$> Np.from_columns n cols.
Proof.
  unfold Np.from_columns. rewrite <- list_fmap_compose.
  apply list_fmap_ext. intros i j [-> Hj]%lookup_seq. cbn.
  by rewrite lookup_replicate_2.
Qed.

(** The intercept is a first entry 1 in front of every row of the matrix
    built without it. *)
Theorem intercept_prepends_ones dp n z :
  Forall (λ x : vector, length x = n) dp →
  (2 ≤ length dp)%nat → (1 ≤ z)%Z →
  ∃ X, get_model_matrix dp (PyInt z) false = Ok X
       ∧ get_model_matrix dp (PyInt z) true = Ok (cons 1 <$> X).
Proof.
  intros Hlen Hk Hz. eexists. split.
  { apply get_model_matrix_expected; [done|by left]. }
  rewrite (get_model_matrix_expected dp n z true) by (done || by left).
  f_equal. unfold expected_columns at 1.
  cbn [app]. rewrite matrix_of_columns_cons, from_columns_ones_cons.
  f_equal. rewrite <- fmap_bind_list.
  rewrite <- expected_columns_no_intercept.
  symmetry. apply model_matrix_from_columns; lia.
Qed.

Lemma intercept_prepends_ones_witness :
  ∃ X, get_model_matrix (inputs sample_data) (PyInt 2) false = Ok X
       ∧ get_model_matrix (inputs sample_data) (PyInt 2) true
         = Ok (cons 1 <$> X).
Proof.
  apply (intercept_prepends_ones (inputs sample_data) 3 2).
  - repeat constructor.
  - cbn. lia.
  - lia.
Defined.

Lemma expected_columns_succ dp n n_pol incl :
  expected_columns dp n (S n_pol) incl =
  expected_columns dp n n_pol incl
  ++ (product_column dp n <$> sorted_combinations (length dp) (S n_pol)).
Proof.
  unfold expected_columns. rewrite seq_S, bind_app, <- app_assoc.
  cbn [mbind list_bind Nat.add]. by rewrite app_nil_r.
Qed.

(** Raising the degree by one appends columns: every row of the matrix
    for degree [z + 1] starts with the row of the matrix for degree [z]. *)
Theorem degree_extends_rows dp n z incl :
  Forall (λ x : vector, length x = n) dp →
  (2 ≤ length dp)%nat → (0 ≤ z)%Z → incl = true ∨ (1 ≤ z)%Z →
  ∃ X X', get_model_matrix dp (PyInt z) incl = Ok X
          ∧ get_model_matrix dp (PyInt (z + 1)) incl = Ok X'
          ∧ length X = n ∧ length X' = n
          ∧ ∀ i row, X !! i = Some row →
              ∃ more, X' !! i = Some (row ++ more).
Proof.
  intros Hlen Hk Hz Hcols. eexists _, _. split.
  { apply get_model_matrix_expected; [done|by left]. }
  split. { apply get_model_matrix_expected; [done|by left]. }
  replace (Z.to_nat (z + 1)) with (S (Z.to_nat z)) by lia.
  rewrite expected_columns_succ.
  destruct (expected_columns dp n (Z.to_nat z) incl) as [|c cols] eqn:Hc.
  { exfalso. apply (f_equal length) in Hc.
    rewrite length_expected_columns in Hc. cbn [length] in Hc.
    destruct Hcols as [->|Hz1]; [lia|]. destruct incl; [lia|].
    cbn [Nat.add] in Hc. apply length_zero_iff_nil in Hc.
    apply combinations_nonempty in Hc; [done|lia..]. }
  cbn [app]. rewrite !matrix_of_columns_cons.
  change (c :: cols ++ ?l) with ((c :: cols) ++ l).
  rewrite from_columns_app.
  split; [apply length_from_columns|].
  split; [rewrite length_zip_with, !length_from_columns; lia|].
  intros i row Hrow.
  assert (i < n)%nat as Hi.
  { apply lookup_lt_Some in Hrow. by rewrite length_from_columns in Hrow. }
  destruct (lookup_lt_is_Some_2
              (Np.from_columns n
                 (product_column dp n
                    <$> sorted_combinations (length dp) (S (Z.to_nat z)))) i)
    as [more Hmore]; [by rewrite length_from_columns|].
  exists more. by rewrite lookup_zip_with, Hrow, Hmore.
Qed.

Lemma degree_extends_rows_witness :
  ∃ X X', get_model_matrix (inputs sample_data) (PyInt 1) false = Ok X
          ∧ get_model_matrix (inputs sample_data) (PyInt (1 + 1)) false
            = Ok X'
          ∧ length X = 3%nat ∧ length X' = 3%nat
          ∧ ∀ i row, X !! i = Some row →
              ∃ more, X' !! i = Some (row ++ more).
Proof.
  apply (degree_extends_rows (inputs sample_data) 3 1 false).
  - repeat constructor.
  - cbn. lia.
  - lia.
  - right. lia.
Defined.

(** ** The parameter dictionary in get_beta *)

Lemma getitem_agree {A} (p p' : gmap string A) key :
  p !! key = p' !! key → getitem p key = getitem p' key.
Proof. unfold getitem. by intros ->. Qed.

Lemma descend_agree E X y g p p' alpha :
  (∀ k, k ∈ keys_read OLS_SGD → p !! k = p' !! k) →
  descend E X y g p alpha = descend E X y g p' alpha.
Proof.
  intros H. unfold descend.
  rewrite (getitem_agree p p' "learning_rate") by (apply H; cbn [keys_read]; repeat constructor).
  rewrite (getitem_agree p p' "max_iterations") by (apply H; cbn [keys_read]; repeat constructor).
  rewrite (getitem_agree p p' "momentum") by (apply H; cbn [keys_read]; repeat constructor).
  by rewrite (getitem_agree p p' "batch_size") by (apply H; cbn [keys_read]; repeat constructor).
Qed.

(** Every kind reads only its own entries of the dictionary: the other
    entries, present or not, change nothing.  In particular the OLS
    gradient-descent kind never looks at ["alpha"]. *)
Theorem get_beta_reads_only (E : Env) (t : RegressorType) X y
    (p p' : gmap string value) :
  (∀ k, k ∈ keys_read t → p !! k = p' !! k) →
  get_beta E (Member t) X y p = get_beta E (Member t) X y p'.
Proof.
  intros H. destruct t; cbn [get_beta].
  - done.
  - by apply descend_agree.
  - by rewrite (getitem_agree p p' "alpha") by (apply H; cbn [keys_read]; repeat constructor).
  - by rewrite (getitem_agree p p' "alpha") by (apply H; cbn [keys_read]; repeat constructor).
  - rewrite (getitem_agree p p' "alpha") by (apply H; cbn [keys_read]; repeat constructor).
    apply descend_agree. intros k Hk. apply H. cbn [keys_read] in Hk |- *.
    repeat (apply elem_of_cons in Hk as [->|Hk]; [repeat constructor|]).
    by apply elem_of_nil in Hk.
  - rewrite (getitem_agree p p' "alpha") by (apply H; cbn [keys_read]; repeat constructor).
    apply descend_agree. intros k Hk. apply H. cbn [keys_read] in Hk |- *.
    repeat (apply elem_of_cons in Hk as [->|Hk]; [repeat constructor|]).
    by apply elem_of_nil in Hk.
Qed.

Lemma get_beta_reads_only_witness :
  get_beta probe (Member OLS_SGD) sample_matrix [qz 1; qz 2]
    (sample_parameters true)
  = get_beta probe (Member OLS_SGD) sample_matrix [qz 1; qz 2]
      (delete "alpha"%string (sample_parameters false)).
Proof.
  apply (get_beta_reads_only probe OLS_SGD).
  intros k Hk. cbn [keys_read] in Hk.
  repeat (apply elem_of_cons in Hk as [->|Hk]; [reflexivity|]).
  by apply elem_of_nil in Hk.
Defined.

Lemma descend_missing E X y g (p : gmap string value) alpha key σ :
  key ∈ keys_read OLS_SGD → p !! key = None →
  descend E X y g p alpha σ = Raise KeyError.
Proof.
  intros Hkey Hnone. unfold descend. rewrite M_bind_unfold.
  unfold with_rng at 1.
  destruct (random_normal E (Np.ncols X) (rng σ)) as [beta r].
  cbn [keys_read] in Hkey.
  repeat (rewrite M_bind_unfold;
          match goal with
          | |- context [lift (getitem p ?k) ?s] =>
              let Hk := fresh "Hk" in
              let v := fresh "v" in
              destruct (p !! k) as [v|] eqn:Hk;
              [ rewrite (lift_ok (getitem p k) v s)
                  by (unfold getitem; by rewrite Hk)
              | by rewrite (lift_raise (getitem p k) KeyError s)
                  by (unfold getitem; by rewrite Hk) ]
          end).
  exfalso.
  repeat (apply elem_of_cons in Hkey as [->|Hkey]; [congruence|]).
  by apply elem_of_nil in Hkey.
Qed.

Lemma descend_missing_alpha E X y g (p : gmap string value) σ :
  p !! "alpha"%string = None →
  descend E X y g p (getitem p "alpha") σ = Raise KeyError.
Proof.
  intros Hnone. unfold descend. rewrite M_bind_unfold.
  unfold with_rng at 1.
  destruct (random_normal E (Np.ncols X) (rng σ)) as [beta r].
  repeat (rewrite M_bind_unfold;
          match goal with
          | |- context [lift (getitem p ?k) ?s] =>
              let Hk := fresh "Hk" in
              let v := fresh "v" in
              destruct (p !! k) as [v|] eqn:Hk;
              [ rewrite (lift_ok (getitem p k) v s)
                  by (unfold getitem; by rewrite Hk)
              | by rewrite (lift_raise (getitem p k) KeyError s)
                  by (unfold getitem; by rewrite Hk) ]
          end).
  congruence.
Qed.

(** A missing dictionary entry is a [KeyError]: one of the four engine
    settings for the gradient-descent kinds, ["alpha"] for the kinds that
    read it, ["fit_intercept"] for [regressor].  The engine and the
    solvers are not reached. *)
Theorem missing_parameter_raises (E : Env) X y
    (p : gmap string value) (σ : state (Rng E)) :
  (∀ t key, t ∈ [OLS_SGD; RIDGE_SGD; LOGISTIC] →
     key ∈ keys_read OLS_SGD → p !! key = None →
     get_beta E (Member t) X y p σ = Raise KeyError)
  ∧ (∀ t, t ∈ [LASSO; RIDGE; RIDGE_SGD; LOGISTIC] →
       p !! "alpha"%string = None →
       get_beta E (Member t) X y p σ = Raise KeyError)
  ∧ (∀ type train_data test_data n_pol,
       p !! "fit_intercept"%string = None →
       regressor E type p train_data test_data n_pol σ = Raise KeyError).
Proof.
  split; [|split].
  - intros t key Ht Hkey Hnone.
    repeat (apply elem_of_cons in Ht as [->|Ht];
            [by eapply descend_missing|]).
    by apply elem_of_nil in Ht.
  - intros t Ht Hnone.
    apply elem_of_cons in Ht as [->|Ht].
    { cbn [get_beta]. apply M_bind_raise, lift_raise.
      unfold getitem. by rewrite Hnone. }
    apply elem_of_cons in Ht as [->|Ht].
    { cbn [get_beta]. apply M_bind_raise, lift_raise.
      unfold getitem. by rewrite Hnone. }
    repeat (apply elem_of_cons in Ht as [->|Ht];
            [by apply descend_missing_alpha|]).
    by apply elem_of_nil in Ht.
  - intros type train_data test_data n_pol Hnone. unfold regressor.
    apply M_bind_raise, lift_raise. unfold getitem. by rewrite Hnone.
Qed.

Lemma missing_parameter_raises_witness :
  get_beta probe (Member RIDGE_SGD) sample_matrix [qz 1; qz 2]
    (delete "momentum"%string (sample_parameters true)) probe_state
  = Raise KeyError.
Proof.
  apply (proj1 (missing_parameter_raises probe sample_matrix [qz 1; qz 2]
                  (delete "momentum"%string (sample_parameters true))
                  probe_state) RIDGE_SGD "momentum"%string).
  - repeat constructor.
  - cbn [keys_read]. repeat constructor.
  - reflexivity.
Defined.

(** ** The closed-form solvers at the edges *)

Lemma zip_plus_zero (a : vector) n :
  length a = n → zip_with Qcplus a (replicate n 0) = a.
Proof.
  intros <-. induction a as [|x a IH]; [done|].
  cbn. by rewrite IH, Qcplus_0_r.
Qed.

Lemma add_zeros k (a : matrix) : ∀ n,
  length a = n → Forall (λ row : vector, length row = k) a →
  Np.add a (replicate n (replicate k 0)) = a.
Proof.
  induction a as [|row a IH]; intros n Hn Hk; [by destruct n|].
  destruct n as [|n]; [done|]. injection Hn as Hn.
  apply Forall_cons in Hk as [Hrow Hk]. unfold Np.add in *.
  cbn [replicate zip_with]. by rewrite zip_plus_zero, IH.
Qed.

Lemma scale_zero_eye k :
  Np.scale 0 (Np.eye k) = replicate k (replicate k 0).
Proof.
  unfold Np.scale, Np.eye. rewrite <- list_fmap_compose.
  rewrite (const_fmap _ _ (replicate k 0)); [by rewrite length_seq|].
  intros _ i _. cbn. rewrite <- list_fmap_compose.
  rewrite (const_fmap _ _ 0); [by rewrite length_seq|].
  intros _ j _. cbn. apply Qcmult_0_l.
Qed.

(** A ridge penalty of zero gives the OLS solution. *)
Theorem ridge_without_penalty (E : Env) (X : matrix) (y : vector)
    (alpha : value) :
  as_number alpha = Ok 0 →
  calculate_beta_ridge E X y alpha = calculate_beta E X y.
Proof.
  intros Ha. unfold calculate_beta_ridge, calculate_beta.
  destruct (gram_ok X) as [-> [Hr1 Hr2]]. cbn [mbind result_bind].
  rewrite Ha. cbn [mbind result_bind].
  by rewrite scale_zero_eye, add_zeros.
Qed.

Lemma ridge_without_penalty_witness :
  calculate_beta_ridge probe sample_matrix [qz 1; qz 2] (PyFloat (qz 0))
  = calculate_beta probe sample_matrix [qz 1; qz 2].
Proof.
  apply (ridge_without_penalty probe sample_matrix [qz 1; qz 2]
           (PyFloat (qz 0))).
  reflexivity.
Defined.

Lemma mapM_raise_first {A B} (f : A → result B) x l e :
  f x = Raise e → mapM f (x :: l) = Raise e.
Proof. intros H. cbn [mapM]. by rewrite H. Qed.

Lemma matvec_first_row (row : vector) (m : matrix) (v : vector) :
  length row ≠ length v → Np.matvec (row :: m) v = Raise ValueError.
Proof.
  intros H. unfold Np.matvec. apply mapM_raise_first.
  by rewrite decide_False.
Qed.

Lemma solve_wrong_targets (p x : matrix) (y : vector) :
  rectangular (Np.ncols x) (Np.ncols x) p → Np.ncols x ≠ 0%nat →
  length y ≠ length x →
  Np.matmul p (Np.transpose x) ≫= (λ q, Np.matvec q y) = Raise ValueError.
Proof.
  intros [Hp1 Hp2] Hk Hy.
  destruct (transpose_rectangular x) as [Ht1 Ht2].
  rewrite matmul_ok by (by rewrite Ht1). cbn [mbind result_bind].
  destruct p as [|row p]; [cbn in Hp1; lia|].
  unfold mat_mul. cbn [fmap list_fmap]. apply matvec_first_row.
  unfold Np.transpose at 1.
  rewrite length_fmap, length_from_columns, ncols_transpose by done.
  congruence.
Qed.

(** Targets that do not have one entry per row of a design matrix with
    at least one column are refused by the last product, in both solvers;
    a penalty that is not a number is refused by the ridge solver before
    the pseudo-inverse is taken. *)
Theorem closed_form_solvers_refuse (E : Env) (X : matrix) (y : vector) :
  (∀ A, rectangular (Np.ncols X) (Np.ncols X) A →
        rectangular (Np.ncols X) (Np.ncols X) (pinv E A)) →
  (Np.ncols X ≠ 0%nat → length y ≠ length X →
     calculate_beta E X y = Raise ValueError
     ∧ ∀ alpha a, as_number alpha = Ok a →
         calculate_beta_ridge E X y alpha = Raise ValueError)
  ∧ (∀ alpha, as_number alpha = Raise TypeError →
       calculate_beta_ridge E X y alpha = Raise TypeError).
Proof.
  intros Hpinv. destruct (gram_ok X) as [Hg Hr]. split.
  - intros Hk Hy. split.
    + unfold calculate_beta. rewrite Hg. cbn [mbind result_bind].
      apply solve_wrong_targets; [by apply Hpinv|done..].
    + intros alpha a Ha. unfold calculate_beta_ridge.
      rewrite Hg, Ha. cbn [mbind result_bind].
      apply solve_wrong_targets; [|done..].
      apply Hpinv, add_rectangular; [done|].
      apply scale_rectangular, eye_rectangular.
  - intros alpha Ha. unfold calculate_beta_ridge.
    rewrite Hg, Ha. done.
Qed.

Lemma closed_form_solvers_refuse_witness :
  calculate_beta probe sample_matrix [qz 1; qz 2; qz 3] = Raise ValueError
  ∧ ∀ alpha a, as_number alpha = Ok a →
      calculate_beta_ridge probe sample_matrix [qz 1; qz 2; qz 3] alpha
      = Raise ValueError.
Proof.
  apply (proj1 (closed_form_solvers_refuse probe sample_matrix
                  [qz 1; qz 2; qz 3] (λ A HA, HA))).
  - cbn. lia.
  - cbn. lia.
Defined.

(** ** get_prediction *)

(** On a matrix with at least one row, all rows with [k] entries: one
    prediction per row, the row times [beta] plus the intercept, when
    [beta] has [k] entries, and [ValueError] when it has another number of
    entries. *)
Theorem get_prediction_outcome (m : matrix) (beta : vector) (c : Qc)
    (k : nat) :
  m ≠ [] → Forall (λ row : vector, length row = k) m →
  get_prediction m beta c =
  if decide (k = length beta)
  then Ok ((λ row, Np.dot row beta + c) <$> m)
  else Raise ValueError.
Proof.
  intros Hne Hrows. case_decide as Hk.
  - apply get_prediction_ok. by rewrite <- Hk.
  - destruct m as [|row rest]; [done|].
    apply Forall_cons in Hrows as [Hrow _].
    unfold get_prediction. rewrite matvec_first_row; [done|congruence].
Qed.

Lemma get_prediction_outcome_witness :
  get_prediction sample_matrix [qz 1; qz 1; qz 1] (qz 3) = Raise ValueError.
Proof.
  apply (get_prediction_outcome sample_matrix [qz 1; qz 1; qz 1] (qz 3) 2).
  - discriminate.
  - repeat constructor.
Defined.

Example get_prediction_sample :
  get_prediction sample_matrix [qz 1; qz 1] (qz 3) = Ok [qz 7; qz 10].
Proof.
  rewrite get_prediction_ok by repeat constructor.
  repeat f_equal; apply (bool_decide_unpack _); vm_compute; exact I.
Qed.

(** ** The dispatcher at the edges *)

Lemma M_bind_ext {R A B} (m : M R A) (f g : A → M R B) σ :
  (∀ a σ', f a σ' = g a σ') → (m ≫= f) σ = (m ≫= g) σ.
Proof.
  intros H. rewrite !M_bind_unfold. by destruct (m σ) as [[a σ']|].
Qed.

Lemma model_matrix_with_ones dp n z :
  Forall (λ x : vector, length x = n) dp →
  (2 ≤ length dp)%nat → (1 ≤ z)%Z →
  get_model_matrix dp (PyInt z) true = Ok (cons 1 <$> design_matrix dp n z).
Proof.
  intros Hlen Hk Hz.
  rewrite (get_model_matrix_expected dp n z true) by (done || by left).
  f_equal. unfold expected_columns at 1.
  cbn [app]. rewrite matrix_of_columns_cons, from_columns_ones_cons.
  f_equal. rewrite <- fmap_bind_list.
  rewrite <- expected_columns_no_intercept.
  symmetry. apply model_matrix_from_columns; lia.
Qed.

(** The rows of the model matrix without the column of ones, observation
    by observation. *)
Lemma design_matrix_rows dp n z :
  (1 ≤ length dp)%nat → (1 ≤ z)%Z →
  design_matrix dp n z =
  (λ i, polynomial_row (Z.to_nat z) (observation dp i)) <$> seq 0 n.
Proof.
  intros Hk Hz. apply list_eq_same_length with n.
  - by rewrite length_fmap, length_seq.
  - unfold design_matrix. apply model_matrix_length; lia.
  - intros i x y Hi Hx Hy.
    unfold design_matrix in Hx.
    rewrite model_matrix_row in Hx by lia.
    rewrite list_lookup_fmap, lookup_seq_lt in Hy by done.
    cbn in Hy. congruence.
Qed.

Lemma length_polynomial_row z (p : vector) :
  length (polynomial_row z p) =
  length (d ← seq 1 z; sorted_combinations (length p) d).
Proof. unfold polynomial_row. by rewrite length_fmap. Qed.

Lemma length_observation dp i : length (observation dp i) = length dp.
Proof. unfold observation. by rewrite length_fmap. Qed.

(** Without [fit_intercept], on two or more train features of one length
    and as many test features of one length, with at least one observation
    each and a degree of at least one, and a fit that succeeds with one
    entry of [beta] per column: the prediction for an observation, train
    or test, is [beta] times the row made of 1 and the polynomial terms of
    that observation.  Nothing is rescaled, no mean is added, and a
    prediction depends on no other observation. *)
Theorem regressor_without_intercept (E : Env) (type : tag)
    (params : gmap string value) (train_data test_data : data)
    (n n' : nat) (z : Z) (σ σ2 : state (Rng E)) (beta : vector) :
  let row dp i := 1 :: polynomial_row (Z.to_nat z) (observation dp i) in
  let X := row (inputs train_data) <$> seq 0 n in
  (∃ v, params !! "fit_intercept"%string = Some v ∧ truthy v = false) →
  Forall (λ x : vector, length x = n) (inputs train_data) →
  Forall (λ x : vector, length x = n') (inputs test_data) →
  (2 ≤ length (inputs train_data))%nat →
  length (inputs test_data) = length (inputs train_data) →
  (1 ≤ n)%nat → (1 ≤ n')%nat → (1 ≤ z)%Z →
  get_beta E type X (targets train_data) params σ = Ok (beta, σ2) →
  Forall (λ r : vector, length r = length beta) X →
  get_model_matrix (inputs train_data) (PyInt z) true = Ok X
  ∧ regressor E type params train_data test_data (PyInt z) σ =
    Ok (((λ i, Np.dot (row (inputs train_data) i) beta) <$> seq 0 n,
         (λ i, Np.dot (row (inputs test_data) i) beta) <$> seq 0 n'), σ2).
Proof.
  intros row X (v & Hv & Hfalse) Htrain Htest Hk Hsame Hn Hn' Hz Hbeta Hrows.
  assert (∀ dp m, Forall (λ x : vector, length x = m) dp →
            (2 ≤ length dp)%nat →
            get_model_matrix dp (PyInt z) true = Ok (row dp <$> seq 0 m))
    as Hbuild.
  { intros dp m Hlen Hdp.
    rewrite (model_matrix_with_ones dp m z) by done. f_equal.
    rewrite design_matrix_rows by lia.
    by rewrite <- list_fmap_compose. }
  assert (∀ m : matrix,
            Forall (λ r : vector, length r = length beta) m →
            get_prediction m beta 0 = Ok ((λ r, Np.dot r beta) <$> m))
    as Hpred.
  { intros m Hm. rewrite get_prediction_ok by done. f_equal.
    apply list_fmap_ext. intros _ r _. ring. }
  assert (Forall (λ r : vector, length r = length beta)
            (row (inputs test_data) <$> seq 0 n')) as Hrowst.
  { apply Forall_fmap, Forall_forall. intros i _. cbn.
    assert (row (inputs train_data) 0%nat ∈ X) as H0.
    { subst X. apply list_elem_of_fmap. exists 0%nat. split; [done|].
      apply elem_of_seq. lia. }
    rewrite <- (proj1 (Forall_forall _ _) Hrows _ H0). subst row. cbn.
    by rewrite !length_polynomial_row, !length_observation, Hsame. }
  split; [by apply Hbuild|].
  unfold regressor.
  rewrite (M_bind_ok _ _ _ v σ)
    by (apply lift_ok; unfold getitem; by rewrite Hv).
  rewrite Hfalse.
  rewrite (M_bind_ok _ _ _ X σ) by (by apply lift_ok, Hbuild).
  rewrite (M_bind_ok _ _ _ _ _ Hbeta).
  erewrite M_bind_ok by (apply lift_ok; by apply Hpred).
  erewrite M_bind_ok by (apply lift_ok, Hbuild; [done|lia]).
  erewrite M_bind_ok by (apply lift_ok; by apply Hpred).
  unfold mret, M_ret. subst X. by rewrite <- !list_fmap_compose.
Qed.

Lemma regressor_without_intercept_witness :
  let row dp i := 1 :: polynomial_row 1 (observation dp i) in
  get_model_matrix (inputs sample_data) (PyInt 1) true
  = Ok (row (inputs sample_data) <$> seq 0 3)
  ∧ regressor probe (Member OLS) (sample_parameters false) sample_data
      sample_test (PyInt 1) probe_state =
    Ok (((λ i, Np.dot (row (inputs sample_data) i) sample_beta_plain)
           <$> seq 0 3,
         (λ i, Np.dot (row (inputs sample_test) i) sample_beta_plain)
           <$> seq 0 2), probe_state).
Proof.
  apply (regressor_without_intercept probe (Member OLS)
           (sample_parameters false) sample_data sample_test 3 2 1
           probe_state probe_state sample_beta_plain).
  - exists (PyBool false). split; reflexivity.
  - repeat constructor.
  - repeat constructor.
  - cbn. lia.
  - reflexivity.
  - lia.
  - lia.
  - lia.
  - vm_compute. reflexivity.
  - vm_compute. repeat constructor.
Defined.

(** With [fit_intercept] a degree that is not positive leaves no column
    to center: the model matrix is the empty array and the maximum over it
    is refused. *)
Theorem fit_intercept_needs_positive_degree (E : Env) (type : tag)
    (params : gmap string value) (train_data test_data : data) (z : Z)
    (σ : state (Rng E)) a b rest :
  (∃ v, params !! "fit_intercept"%string = Some v ∧ truthy v = true) →
  inputs train_data = a :: b :: rest → length a = length b → (z ≤ 0)%Z →
  regressor E type params train_data test_data (PyInt z) σ
  = Raise ValueError.
Proof.
  intros (v & Hv & Htrue) Hin Hab Hz. unfold regressor.
  rewrite (M_bind_ok _ _ _ v σ)
    by (apply lift_ok; unfold getitem; by rewrite Hv).
  rewrite Htrue, Hin.
  rewrite (M_bind_ok _ _ _ [] σ)
    by (apply lift_ok; by rewrite get_model_matrix_nonpositive).
  rewrite M_bind_unfold. unfold alloc.
  apply M_bind_raise, (center_empty _ _ (inputs_dtype train_data)).
  cbn [heap]. by rewrite list_lookup_middle.
Qed.

Lemma fit_intercept_needs_positive_degree_witness :
  regressor probe (Member OLS) (sample_parameters true) sample_data
    sample_data (PyInt 0) probe_state = Raise ValueError.
Proof.
  apply (fit_intercept_needs_positive_degree probe (Member OLS)
           (sample_parameters true) sample_data sample_data 0 probe_state
           [qz 1; qz 2; qz 4] [qz 3; qz 5; qz 4] []).
  - exists (PyBool true). split; reflexivity.
  - reflexivity.
  - reflexivity.
  - lia.
Defined.

(** Train data with a single feature stop every kind of regressor, with
    or without [fit_intercept], at the dimension check. *)
Theorem regressor_single_feature (E : Env) (type : tag)
    (params : gmap string value) (train_data test_data : data)
    (n_pol : value) (σ : state (Rng E)) x :
  is_Some (params !! "fit_intercept"%string) →
  inputs train_data = [x] →
  regressor E type params train_data test_data n_pol σ = Raise IndexError.
Proof.
  intros [v Hv] Hin. unfold regressor.
  rewrite (M_bind_ok _ _ _ v σ)
    by (apply lift_ok; unfold getitem; by rewrite Hv).
  rewrite Hin. destruct (truthy v); by apply M_bind_raise, lift_raise.
Qed.

Lemma regressor_single_feature_witness :
  regressor probe (Member RIDGE) (sample_parameters true)
    (Data [[qz 1; qz 2; qz 4]] [qz 1; qz 2; qz 3] Np.Float64) sample_data (PyInt 1)
    probe_state = Raise IndexError.
Proof.
  apply (regressor_single_feature probe (Member RIDGE)
           (sample_parameters true)
           (Data [[qz 1; qz 2; qz 4]] [qz 1; qz 2; qz 3] Np.Float64) sample_data
           (PyInt 1) probe_state [qz 1; qz 2; qz 4]).
  - exists (PyBool true). reflexivity.
  - reflexivity.
Defined.

Lemma regressor_same_fit E (t t' : tag) params train_data test_data n_pol σ :
  (∀ X, get_beta E t X (targets train_data) params
        = get_beta E t' X (targets train_data) params) →
  regressor E t params train_data test_data n_pol σ
  = regressor E t' params train_data test_data n_pol σ.
Proof.
  intros H. unfold regressor. apply M_bind_ext. intros v σ1.
  destruct (truthy v).
  - repeat (apply M_bind_ext; intros ? ?).
    destruct a1 as [[l m_mean] divisor].
    repeat (apply M_bind_ext; intros ? ?). by rewrite H.
  - repeat (apply M_bind_ext; intros ? ?). by rewrite H.
Qed.

(** With an integer penalty of zero in the dictionary the shorthand
    [logistic] is the shorthand [ols_sgd]: same draws, same engine call,
    same predictions. *)
Theorem logistic_is_ols_sgd (E : Env) (params : gmap string value)
    (train_data test_data : data) (n_pol : value) (σ : state (Rng E)) :
  params !! "alpha"%string = Some (PyInt 0) →
  logistic E params train_data test_data n_pol σ
  = ols_sgd E params train_data test_data n_pol σ.
Proof.
  intros Halpha. unfold logistic, ols_sgd. apply regressor_same_fit.
  intros X. cbn [get_beta]. unfold getitem. by rewrite Halpha.
Qed.

Lemma logistic_is_ols_sgd_witness :
  logistic probe (<["alpha"%string := PyInt 0]> (sample_parameters true))
    sample_data sample_data (PyInt 1) probe_state
  = ols_sgd probe (<["alpha"%string := PyInt 0]> (sample_parameters true))
      sample_data sample_data (PyInt 1) probe_state.
Proof.
  apply (logistic_is_ols_sgd probe
           (<["alpha"%string := PyInt 0]> (sample_parameters true))).
  reflexivity.
Defined.

(** ** What centering leaves in the columns *)

Lemma Qc_of_nat_S n :
  Qc_of_Z (Z.of_nat (S n)) = Qc_of_Z (Z.of_nat n) + 1.
Proof. by rewrite Nat2Z.inj_succ, <- Z.add_1_r, Z2Qc_inj_add, Z2Qc_inj_1. Qed.

Lemma Qc_of_nat_nonzero n : (1 ≤ n)%nat → Qc_of_Z (Z.of_nat n) ≠ 0.
Proof.
  intros Hn. rewrite <- Z2Qc_inj_0. intros H%Z2Qc_inj. lia.
Qed.

Lemma sum_shift_scale (col : vector) (μ r : Qc) :
  r ≠ 0 →
  Np.sum ((λ x, (x - μ) / r) <$> col)
  = (Np.sum col - Qc_of_Z (Z.of_nat (length col)) * μ) / r.
Proof.
  intros Hr. unfold Np.sum.
  induction col as [|x col IH]; cbn [fmap list_fmap foldr length].
  - change (Z.of_nat 0) with 0%Z. rewrite Z2Qc_inj_0. by field.
  - rewrite IH, Qc_of_nat_S. by field.
Qed.

(** Shifting a non-empty column by its mean and dividing gives a column
    of mean zero. *)
Lemma mean_shift_scale (col : vector) (r : Qc) :
  col ≠ [] → r ≠ 0 →
  Np.mean ((λ x, (x - Np.mean col) / r) <$> col) = 0.
Proof.
  intros Hne Hr. unfold Np.mean at 1. rewrite sum_shift_scale by done.
  rewrite length_fmap. unfold Np.mean.
  assert (Qc_of_Z (Z.of_nat (length col)) ≠ 0) as Hn.
  { apply Qc_of_nat_nonzero. destruct col; [done|cbn; lia]. }
  by field.
Qed.

Lemma qmax_monotone (f : Qc → Qc) x y :
  (∀ a b, a ≤ b → f a ≤ f b) → f (Np.qmax x y) = Np.qmax (f x) (f y).
Proof.
  intros Hf. unfold Np.qmax.
  destruct (decide (x ≤ y)) as [Hxy|Hxy].
  - by rewrite decide_True by (by apply Hf).
  - destruct (decide (f x ≤ f y)) as [Hfxy|]; [|done].
    apply Qcle_antisym; [done|].
    by apply Hf, Qclt_le_weak, Qcnot_le_lt.
Qed.

Lemma qmin_monotone (f : Qc → Qc) x y :
  (∀ a b, a ≤ b → f a ≤ f b) → f (Np.qmin x y) = Np.qmin (f x) (f y).
Proof.
  intros Hf. unfold Np.qmin.
  destruct (decide (x ≤ y)) as [Hxy|Hxy].
  - by rewrite decide_True by (by apply Hf).
  - destruct (decide (f x ≤ f y)) as [Hfxy|]; [|done].
    apply Qcle_antisym; [|done].
    by apply Hf, Qclt_le_weak, Qcnot_le_lt.
Qed.

Lemma maximum_monotone (f : Qc → Qc) (col : vector) :
  col ≠ [] → (∀ a b, a ≤ b → f a ≤ f b) →
  Np.maximum (f <$> col) = f (Np.maximum col).
Proof.
  intros Hne Hf. destruct col as [|x col]; [done|].
  cbn [fmap list_fmap Np.maximum]. clear Hne.
  induction col as [|y col IH]; [done|].
  cbn [fmap list_fmap foldr]. by rewrite qmax_monotone, <- IH.
Qed.

Lemma minimum_monotone (f : Qc → Qc) (col : vector) :
  col ≠ [] → (∀ a b, a ≤ b → f a ≤ f b) →
  Np.minimum (f <$> col) = f (Np.minimum col).
Proof.
  intros Hne Hf. destruct col as [|x col]; [done|].
  cbn [fmap list_fmap Np.minimum]. clear Hne.
  induction col as [|y col IH]; [done|].
  cbn [fmap list_fmap foldr]. by rewrite qmin_monotone, <- IH.
Qed.

Lemma varies_nonempty col : varies col → col ≠ [].
Proof. intros (a & _ & Ha & _) ->. by apply elem_of_nil in Ha. Qed.

Lemma varies_range_pos (col : vector) :
  varies col → 0 < Np.maximum col - Np.minimum col.
Proof.
  intros Hv. pose proof (varies_range col Hv) as Hnz.
  destruct Hv as (a & _ & Ha & _).
  assert (Np.minimum col ≤ Np.maximum col) as Hle.
  { eapply Qcle_trans; [by apply minimum_le|by apply maximum_ge]. }
  apply Qcle_lt_or_eq in Hle as [Hlt|Heq].
  - apply (proj1 (Qcplus_lt_mono_r _ _ (- Np.minimum col))) in Hlt.
    by rewrite Qcplus_opp_r in Hlt.
  - destruct Hnz. rewrite Heq. ring.
Qed.

Lemma shift_scale_monotone (μ r : Qc) a b :
  0 < r → a ≤ b → (a - μ) / r ≤ (b - μ) / r.
Proof.
  intros Hr Hab. apply Qcmult_le_mono_nonneg_r.
  - by apply Qclt_le_weak, Qcinv_pos.
  - by apply Qcplus_le_mono_r.
Qed.

(** Shifting a column that varies and dividing by its range gives a
    column of range one. *)
Lemma range_shift_scale (col : vector) (μ : Qc) :
  varies col →
  Np.maximum ((λ x, (x - μ) / (Np.maximum col - Np.minimum col)) <$> col)
  - Np.minimum ((λ x, (x - μ) / (Np.maximum col - Np.minimum col)) <$> col)
  = 1.
Proof.
  intros Hv. set (r := Np.maximum col - Np.minimum col).
  pose proof (varies_range_pos col Hv) as Hr.
  pose proof (varies_nonempty col Hv) as Hne.
  rewrite (maximum_monotone (λ x, (x - μ) / r));
    [|done|intros a b; by apply shift_scale_monotone].
  rewrite (minimum_monotone (λ x, (x - μ) / r));
    [|done|intros a b; by apply shift_scale_monotone].
  subst r. field. by apply varies_range.
Qed.

Section centered.
Context (m : matrix).
Hypothesis Hrows : m ≠ [].
Hypothesis Hrect : Forall (λ row : vector, length row = Np.ncols m) m.

Let scaled := scale_row (Np.mean_axis0 m) (range_axis0 m) <$> m.

Lemma scaled_rows :
  Forall (λ row : vector, length row = Np.ncols m) scaled.
Proof.
  subst scaled. apply Forall_fmap. eapply Forall_impl; [exact Hrect|].
  intros row Hrow. cbn.
  apply length_scale_row;
    [apply length_mean_axis0|apply length_range_axis0|done].
Qed.

Lemma scaled_ncols : Np.ncols scaled = Np.ncols m.
Proof.
  pose proof scaled_rows as H. subst scaled.
  destruct m as [|row rest]; [done|].
  cbn [fmap list_fmap] in *. rewrite ncols_cons. by inversion H.
Qed.

(** A column of the rescaled array is the column of the original,
    shifted by its mean and divided by its range. *)
Lemma scaled_column j :
  (j < Np.ncols m)%nat →
  column j scaled =
  (λ x, (x - Np.mean (column j m))
        / (Np.maximum (column j m) - Np.minimum (column j m)))
    <$> column j m.
Proof.
  intros Hj. subst scaled. unfold column.
  rewrite <- !list_fmap_compose. apply list_fmap_ext.
  intros i row Hrow. cbn.
  assert (length row = Np.ncols m) as Hr
    by (by eapply (Forall_lookup_1 _ _ _ _ Hrect)).
  rewrite mean_axis0_columns, range_axis0_columns.
  rewrite (vector_entries row _ Hr) at 1.
  rewrite scale_row_entries, list_lookup_fmap, lookup_seq_lt by done.
  done.
Qed.

End centered.

(** After [center] every column of a float array that had no constant
    column has mean zero and range one (exactly over the rationals; in
    floating point up to rounding). *)
Theorem centered_columns_normalised (E : Env) (l : loc) (m : matrix)
    (σ : state (Rng E)) :
  heap σ !! l = Some (Array Np.Float64 m) → m ≠ [] →
  Forall (λ row : vector, length row = Np.ncols m) m →
  (∀ j, (j < Np.ncols m)%nat → varies (column j m)) →
  ∃ scaled m_mean divisor σ',
    center E l σ = Ok ((l, m_mean, divisor), σ')
    ∧ heap σ' !! l = Some (Array Np.Float64 scaled)
    ∧ Np.ncols scaled = Np.ncols m
    ∧ ∀ j, (j < Np.ncols m)%nat →
        Np.mean (column j scaled) = 0
        ∧ Np.maximum (column j scaled) - Np.minimum (column j scaled) = 1.
Proof.
  intros Hl Hne Hrect Hv.
  eexists _, _, _, _. split; [by apply center_spec|].
  cbn [heap]. rewrite centered_rows_float. split.
  { apply list_lookup_insert_eq. by eapply lookup_lt_Some. }
  split; [by apply scaled_ncols|].
  intros j Hj. rewrite scaled_column by done.
  pose proof (Hv j Hj) as Hvj. split.
  - apply mean_shift_scale; [by apply varies_nonempty|by apply varies_range].
  - by apply range_shift_scale.
Qed.

Lemma centered_columns_normalised_witness :
  ∃ scaled m_mean divisor σ',
    center probe 0%nat sample_state = Ok ((0%nat, m_mean, divisor), σ')
    ∧ heap σ' !! 0%nat = Some (Array Np.Float64 scaled)
    ∧ Np.ncols scaled = Np.ncols sample_matrix
    ∧ ∀ j, (j < Np.ncols sample_matrix)%nat →
        Np.mean (column j scaled) = 0
        ∧ Np.maximum (column j scaled) - Np.minimum (column j scaled) = 1.
Proof.
  apply (centered_columns_normalised probe 0%nat sample_matrix sample_state).
  - reflexivity.
  - discriminate.
  - repeat constructor.
  - exact sample_matrix_varies.
Defined.

(** ** The lasso objective *)

Lemma Qc_opp_nonneg x : x ≤ 0 → 0 ≤ - x.
Proof.
  intros H. apply Qcopp_le_compat in H.
  replace (- 0) with 0 in H by ring. done.
Qed.

Lemma Qc_square_nonneg x : 0 ≤ x * x.
Proof.
  destruct (decide (0 ≤ x)) as [H|H].
  - by apply Qcmult_nonneg_nonneg.
  - replace (x * x) with (- x * - x) by ring.
    assert (0 ≤ - x) by (by apply Qc_opp_nonneg, Qclt_le_weak, Qcnot_le_lt).
    by apply Qcmult_nonneg_nonneg.
Qed.

Lemma qabs_nonneg x : 0 ≤ Np.qabs x.
Proof.
  unfold Np.qabs. case_decide; [done|].
  by apply Qc_opp_nonneg, Qclt_le_weak, Qcnot_le_lt.
Qed.

Lemma sum_nonneg (a : vector) : Forall (λ x, 0 ≤ x) a → 0 ≤ Np.sum a.
Proof.
  unfold Np.sum. induction 1 as [|x a Hx _ IH]; [done|].
  cbn [foldr]. by apply Qcplus_nonneg_nonneg.
Qed.

Lemma half_inverse_nonneg n : (1 ≤ n)%nat → 0 ≤ 1 / (2 * Qc_of_Z (Z.of_nat n)).
Proof.
  intros Hn. unfold Qcdiv. rewrite Qcmult_1_l.
  apply Qclt_le_weak, Qcinv_pos.
  rewrite <- Z2Qc_inj_2, <- Z2Qc_inj_mul, <- Z2Qc_inj_0.
  apply (proj1 (Z2Qc_inj_lt 0 (2 * Z.of_nat n))). lia.
Qed.

(** The objective divides by the number of targets before anything else:
    no targets is a [ZeroDivisionError].  With targets, rows of the length
    of [beta] and as many targets as rows it is half the mean squared
    residual plus the penalty times the sum of the [|beta_j|], and for a
    penalty that is not negative it is never negative. *)
Theorem lasso_error_outcome (alpha : value) (X : matrix) (y beta : vector) :
  (y = [] → lasso_error alpha X y beta = Raise ZeroDivisionError)
  ∧ (∀ a, y ≠ [] → as_number alpha = Ok a →
       Forall (λ row : vector, length row = length beta) X →
       length X = length y →
       lasso_error alpha X y beta =
       Ok (1 / (2 * Qc_of_Z (Z.of_nat (length y)))
           * Np.sum ((λ x, x * x) <$> zip_with Qcminus y (mat_vec X beta))
           + a * Np.sum (Np.qabs <$> beta)))
  ∧ (∀ a v, as_number alpha = Ok a → 0 ≤ a →
       lasso_error alpha X y beta = Ok v → 0 ≤ v).
Proof.
  split; [|split].
  - by intros ->.
  - intros a Hy Ha Hrows Hlen. unfold lasso_error.
    rewrite decide_False by (by destruct y). cbn [mbind result_bind].
    rewrite matvec_ok by done. cbn [mbind result_bind].
    unfold Np.sub. rewrite broadcast_same_length
      by (unfold mat_vec; rewrite length_fmap; lia).
    cbn [mbind result_bind]. by rewrite Ha.
  - intros a v Ha Hpos. unfold lasso_error.
    destruct (decide (length y = 0%nat)) as [|Hy]; [done|].
    cbn [mbind result_bind].
    destruct (Np.matvec X beta) as [xb|]; [|done]. cbn [mbind result_bind].
    destruct (Np.sub y xb) as [r|]; [|done]. cbn [mbind result_bind].
    rewrite Ha. cbn [mbind result_bind]. intros [= <-].
    apply Qcplus_nonneg_nonneg; apply Qcmult_nonneg_nonneg.
    + apply half_inverse_nonneg. lia.
    + apply sum_nonneg, Forall_fmap, Forall_forall. intros x _.
      apply Qc_square_nonneg.
    + done.
    + apply sum_nonneg, Forall_fmap, Forall_forall. intros x _.
      apply qabs_nonneg.
Qed.

Lemma lasso_error_outcome_witness :
  lasso_error (PyFloat (qz 1)) sample_matrix [qz 1; qz 2] [qz 1; qz 1] =
  Ok (1 / (2 * Qc_of_Z (Z.of_nat (length [qz 1; qz 2])))
      * Np.sum ((λ x, x * x) <$>
                  zip_with Qcminus [qz 1; qz 2]
                    (mat_vec sample_matrix [qz 1; qz 1]))
      + qz 1 * Np.sum (Np.qabs <$> [qz 1; qz 1])).
Proof.
  apply (proj1 (proj2 (lasso_error_outcome (PyFloat (qz 1)) sample_matrix
                         [qz 1; qz 2] [qz 1; qz 1])) (qz 1)).
  - discriminate.
  - reflexivity.
  - repeat constructor.
  - reflexivity.
Defined.

(** ** Which index combinations there are *)

Lemma all_tuples_complete k d t :
  length t = d → Forall (λ j, (j < k)%nat) t → t ∈ all_tuples k d.
Proof.
  revert t. induction d as [|d IH]; intros t Hl Ht.
  - destruct t; [|done]. cbn. by left.
  - destruct t as [|y t]; [done|]. injection Hl as Hl.
    apply Forall_cons in Ht as [Hy Ht]. cbn [all_tuples].
    apply list_elem_of_bind. exists y. split.
    + apply list_elem_of_fmap. exists t. split; [done|by apply IH].
    + apply elem_of_seq. lia.
Qed.

Lemma all_tuples_NoDup k d : NoDup (all_tuples k d).
Proof.
  induction d as [|d IH]; cbn [all_tuples].
  - apply NoDup_singleton.
  - apply NoDup_bind; [| |apply NoDup_seq].
    + intros y1 y2 t _ _ (t1 & -> & _)%list_elem_of_fmap
        (t2 & Heq & _)%list_elem_of_fmap. congruence.
    + intros y _. apply NoDup_fmap_2; [|done]. intros t1 t2. congruence.
Qed.

(** The index combinations of lines 55-60 are exactly the non-empty
    tuples of at most [n_pol] feature indices in non-decreasing order, and
    none is listed twice: no polynomial term is missing or repeated. *)
Theorem index_combinations_exact (data_points : list vector) (n_pol : Z) :
  (∀ c, c ∈ index_combinations data_points n_pol ↔
        (1 ≤ length c)%nat ∧ (Z.of_nat (length c) ≤ n_pol)%Z
        ∧ Forall (λ j, (j < length data_points)%nat) c ∧ Sorted le c)
  ∧ NoDup (index_combinations data_points n_pol).
Proof.
  rewrite index_combinations_sorted. split.
  - intros c. rewrite list_elem_of_bind. split.
    + intros (d & Hc & [Hd1 Hd2]%elem_of_seq).
      apply sorted_combinations_elem in Hc as (<- & Hc & Hs).
      repeat split; [done|lia|done|done].
    + intros (H1 & H2 & Hc & Hs). exists (length c). split.
      * apply list_elem_of_filter. split; [done|].
        by apply all_tuples_complete.
      * apply elem_of_seq. lia.
  - apply NoDup_bind; [| |apply NoDup_seq].
    + intros d1 d2 c _ _ (<- & _)%sorted_combinations_elem
        (<- & _)%sorted_combinations_elem. done.
    + intros d _. apply NoDup_filter, all_tuples_NoDup.
Qed.

(** ** Test data with another number of features *)

Lemma cwr_length_pool {A B} r : ∀ (pool : list A) (pool' : list B),
  length pool = length pool' →
  length (combinations_with_replacement pool r)
  = length (combinations_with_replacement pool' r).
Proof.
  induction r as [|r IHr]; intros pool pool' Hl; [done|].
  revert pool' Hl. induction pool as [|x rest IHp]; intros pool' Hl.
  - by destruct pool'.
  - destruct pool' as [|x' rest']; [done|].
    rewrite !cwr_cons, !length_app, !length_fmap.
    rewrite (IHr (x :: rest) (x' :: rest')) by done.
    rewrite (IHp rest') by (cbn in Hl; lia). done.
Qed.

Lemma cwr_length_pos {A} r (pool : list A) :
  pool ≠ [] → (1 ≤ length (combinations_with_replacement pool r))%nat.
Proof.
  intros Hne. induction r as [|r IH]; [cbn; lia|].
  destruct pool as [|x rest]; [done|].
  rewrite cwr_cons, length_app, length_fmap. lia.
Qed.

Lemma count_step k d :
  (1 ≤ d)%nat →
  (length (sorted_combinations k d) < length (sorted_combinations (S k) d))%nat.
Proof.
  intros Hd. destruct d as [|d]; [lia|].
  rewrite <- !cwr_indices_sorted_combinations.
  cbn [seq]. rewrite cwr_cons, length_app, length_fmap.
  rewrite (cwr_length_pool (S d) (seq 1 k) (seq 0 k))
    by (by rewrite !length_seq).
  pose proof (cwr_length_pos d (0%nat :: seq 1 k) ltac:(done)). lia.
Qed.

Lemma count_strict d k k' :
  (1 ≤ d)%nat → (k < k')%nat →
  (length (sorted_combinations k d) < length (sorted_combinations k' d))%nat.
Proof.
  intros Hd. induction 1 as [|k' _ IH].
  - by apply count_step.
  - pose proof (count_step k' d Hd). lia.
Qed.

(** More features give more polynomial columns. *)
Lemma total_strict z k k' :
  (1 ≤ z)%nat → (k < k')%nat →
  (length (d ← seq 1 z; sorted_combinations k d)
   < length (d ← seq 1 z; sorted_combinations k' d))%nat.
Proof.
  intros Hz Hk. induction z as [|z IH]; [lia|].
  rewrite !seq_S, !bind_app, !length_app. cbn [mbind list_bind Nat.add].
  rewrite !app_nil_r.
  pose proof (count_strict (S z) k k' ltac:(lia) Hk).
  destruct z as [|z]; [cbn [seq mbind list_bind length]; lia|].
  specialize (IH ltac:(lia)). lia.
Qed.

Lemma total_at_least_two z k :
  (1 ≤ z)%nat → (2 ≤ k)%nat →
  (2 ≤ length (d ← seq 1 z; sorted_combinations k d))%nat.
Proof.
  intros Hz Hk.
  assert (2 ≤ length (d ← seq 1 z; sorted_combinations 2 d))%nat as H2.
  { destruct z as [|z]; [lia|]. cbn [seq mbind list_bind].
    rewrite length_app.
    assert (length (sorted_combinations 2 1) = 2%nat) as ->
      by (vm_compute; reflexivity).
    lia. }
  destruct (decide (k = 2%nat)) as [->|Hne]; [done|].
  pose proof (total_strict z 2 k Hz ltac:(lia)). lia.
Qed.

Lemma broadcast_mismatch f (a b : vector) :
  length a ≠ length b → (2 ≤ length a)%nat → (2 ≤ length b)%nat →
  Np.broadcast f a b = Raise ValueError.
Proof.
  intros Hab Ha Hb. unfold Np.broadcast. rewrite decide_False by done.
  destruct a as [|? [|? ?]]; cbn in Ha; try lia.
  destruct b as [|? [|? ?]]; cbn in Hb; try lia. done.
Qed.

(** With [fit_intercept], test data with another number of features than
    the train data are refused when the train mean is subtracted: the test
    matrix has another number of columns. *)
Theorem test_features_must_match (E : Env) (type : tag)
    (params : gmap string value) (train_data test_data : data)
    (n n' : nat) (z : Z) (σ σ2 : state (Rng E)) (beta : vector) :
  let X := design_matrix (inputs train_data) n z in
  let d := inputs_dtype train_data in
  let centered := centered_rows d X in
  (∃ v, params !! "fit_intercept"%string = Some v ∧ truthy v = true) →
  Forall (λ x : vector, length x = n) (inputs train_data) →
  Forall (λ x : vector, length x = n') (inputs test_data) →
  (2 ≤ length (inputs train_data))%nat →
  (2 ≤ length (inputs test_data))%nat →
  length (inputs test_data) ≠ length (inputs train_data) →
  (1 ≤ n)%nat → (1 ≤ n')%nat → (1 ≤ z)%Z →
  get_beta E type centered (targets train_data) params
    (State (heap σ ++ [Array d centered]) (rng σ)) = Ok (beta, σ2) →
  length beta = Np.ncols X →
  regressor E type params train_data test_data (PyInt z) σ
  = Raise ValueError.
Proof.
  intros X d centered (v & Hv & Htrue) Htrain Htest Hk Hk' Hdiff Hn Hn' Hz
    Hbeta Hlen.
  assert (1 ≤ Z.to_nat z)%nat as Hz' by lia.
  assert (1 ≤ length (inputs train_data))%nat as Hf by lia.
  assert (1 ≤ length (inputs test_data))%nat as Hf' by lia.
  pose proof (model_matrix_ncols (inputs train_data) n _ Hf Hz' Hn) as HK.
  pose proof (model_matrix_rows (inputs train_data) n _ Hf Hz') as Hrows.
  pose proof (model_matrix_length (inputs train_data) n _ Hf Hz') as Hlength.
  fold (design_matrix (inputs train_data) n z) in HK, Hrows, Hlength.
  fold X in HK, Hrows, Hlength. rewrite <- HK in Hrows.
  assert (X ≠ []) as Hne by (intros HX0; rewrite HX0 in Hlength; cbn in Hlength; lia).
  unfold regressor.
  rewrite (M_bind_ok _ _ _ v σ)
    by (apply lift_ok; unfold getitem; by rewrite Hv).
  rewrite Htrue.
  rewrite (M_bind_ok _ _ _ X σ)
    by (apply lift_ok, get_model_matrix_expected; auto).
  pose proof (alloc_center E d X σ Hne Hrows) as Hc.
  rewrite M_bind_unfold in Hc. rewrite M_bind_unfold.
  cbn [model_matrix_dtype]. fold d.
  destruct (alloc d X σ) as [[l σa]|] eqn:Ha; [|done].
  rewrite M_bind_unfold, Hc. fold centered.
  rewrite (M_bind_ok _ _ _ centered
             (State (heap σ ++ [Array d centered]) (rng σ)))
    by (unfold load; cbn [heap]; by rewrite list_lookup_middle).
  rewrite (M_bind_ok _ _ _ _ _ Hbeta).
  erewrite M_bind_ok; cycle 1.
  { apply lift_ok, get_prediction_ok. rewrite Hlen.
    by apply centered_rows_lengths. }
  rewrite (M_bind_ok _ _ _ (design_matrix (inputs test_data) n' z) σ2)
    by (apply lift_ok, get_model_matrix_expected; auto).
  apply M_bind_raise, lift_raise.
  pose proof (model_matrix_rows (inputs test_data) n' _ Hf' Hz') as Hrows'.
  pose proof (model_matrix_length (inputs test_data) n' _ Hf' Hz')
    as Hlength'.
  fold (design_matrix (inputs test_data) n' z) in Hrows', Hlength'.
  destruct (design_matrix (inputs test_data) n' z) as [|row rest];
    [cbn in Hlength'; lia|].
  apply Forall_cons in Hrows' as [Hrow _].
  unfold Np.rows_sub. apply mapM_raise_first.
  pose proof (total_at_least_two _ _ Hz' Hk) as H2.
  pose proof (total_at_least_two _ _ Hz' Hk') as H2'.
  apply broadcast_mismatch; rewrite ?length_mean_axis0, ?HK, ?Hrow;
    [|lia|lia].
  destruct (lt_eq_lt_dec (length (inputs test_data))
              (length (inputs train_data))) as [[Hlt|Heq]|Hgt]; [|done|].
  - pose proof (total_strict _ _ _ Hz' Hlt). lia.
  - pose proof (total_strict _ _ _ Hz' Hgt). lia.
Qed.

Lemma test_features_must_match_witness :
  regressor probe (Member OLS) (sample_parameters true) sample_data
    (Data [[qz 1]; [qz 2]; [qz 3]] [qz 1] Np.Float64) (PyInt 1) probe_state
  = Raise ValueError.
Proof.
  apply (test_features_must_match probe (Member OLS)
           (sample_parameters true) sample_data
           (Data [[qz 1]; [qz 2]; [qz 3]] [qz 1] Np.Float64) 3 1 1 probe_state
           sample_final sample_beta).
  - exists (PyBool true). split; reflexivity.
  - repeat constructor.
  - repeat constructor.
  - cbn. lia.
  - cbn. lia.
  - cbn. lia.
  - lia.
  - lia.
  - lia.
  - vm_compute. reflexivity.
  - vm_compute. reflexivity.
Defined.

(** ** Integer arrays *)

Lemma truncate_small (q : Qc) : -1 < q → q < 1 → Np.truncate q = 0%Z.
Proof.
  unfold Qclt, Qlt. cbn. intros H1 H2. unfold Np.truncate.
  change (Qnum (Qred (- Qred 1))) with (-1)%Z in H1.
  change (QDen (Qred (- Qred 1))) with 1%Z in H1.
  change (Qnum (Qred 1)) with 1%Z in H2.
  change (QDen (Qred 1)) with 1%Z in H2.
  destruct (Z.le_gt_cases 0 (Qnum q)) as [Hq|Hq].
  - apply Z.quot_small. lia.
  - rewrite <- (Z.opp_involutive (Qnum q)), Z.quot_opp_l by lia.
    rewrite Z.quot_small by lia. done.
Qed.

Lemma cast_integer_small (q : Qc) :
  -1 < q → q < 1 → Np.cast Np.Int64 q = 0.
Proof.
  intros H1 H2. cbn [Np.cast]. rewrite truncate_small by done.
  apply Z2Qc_inj_0.
Qed.

Lemma sum_affine (col : vector) (a b : Qc) :
  Np.sum ((λ x, a * x + b) <$> col)
  = a * Np.sum col + Qc_of_Z (Z.of_nat (length col)) * b.
Proof.
  unfold Np.sum.
  induction col as [|x col IH]; cbn [fmap list_fmap foldr length].
  - change (Z.of_nat 0) with 0%Z. rewrite Z2Qc_inj_0. ring.
  - rewrite IH, Qc_of_nat_S. ring.
Qed.

Lemma sum_pos (a : vector) x :
  Forall (λ y, 0 ≤ y) a → x ∈ a → 0 < x → 0 < Np.sum a.
Proof.
  induction a as [|y a IH]; intros Hall Hx Hpos.
  - by apply elem_of_nil in Hx.
  - apply Forall_cons in Hall as [Hy Hall]. unfold Np.sum. cbn [foldr].
    apply elem_of_cons in Hx as [->|Hx].
    + apply Qcplus_pos_nonneg; [done|by apply sum_nonneg].
    + apply Qcplus_nonneg_pos; [done|by apply IH].
Qed.

Lemma Qc_of_nat_pos n : (1 ≤ n)%nat → 0 < Qc_of_Z (Z.of_nat n).
Proof.
  intros Hn. rewrite <- Z2Qc_inj_0. apply (proj1 (Z2Qc_inj_lt 0 _)). lia.
Qed.

Lemma Qcle_minus x y : x ≤ y → 0 ≤ y - x.
Proof. intros H. by apply Qcle_minus_iff in H. Qed.

Lemma Qclt_minus x y : x < y → 0 < y - x.
Proof. intros H. by apply Qclt_minus_iff in H. Qed.

Lemma Qclt_of_minus x y : 0 < y - x → x < y.
Proof. intros H. by apply Qclt_minus_iff. Qed.

(** A column that varies has an element above its minimum and one below
    its maximum. *)
Lemma varies_above_minimum (col : vector) :
  varies col → ∃ x, x ∈ col ∧ Np.minimum col < x.
Proof.
  intros (a & b & Ha & Hb & Hab).
  destruct (Qcle_lt_or_eq _ _ (minimum_le col a Ha)) as [Hlt|Heq]; [eauto|].
  destruct (Qcle_lt_or_eq _ _ (minimum_le col b Hb)) as [Hlt|Heq']; [eauto|].
  congruence.
Qed.

Lemma varies_below_maximum (col : vector) :
  varies col → ∃ x, x ∈ col ∧ x < Np.maximum col.
Proof.
  intros (a & b & Ha & Hb & Hab).
  destruct (Qcle_lt_or_eq _ _ (maximum_ge col a Ha)) as [Hlt|Heq]; [eauto|].
  destruct (Qcle_lt_or_eq _ _ (maximum_ge col b Hb)) as [Hlt|Heq']; [eauto|].
  congruence.
Qed.

(** The mean of a column that varies lies strictly between its minimum
    and its maximum. *)
Lemma mean_above_minimum (col : vector) :
  varies col → 0 < Np.mean col - Np.minimum col.
Proof.
  intros Hv. pose proof (varies_nonempty col Hv) as Hne.
  assert (1 ≤ length col)%nat as Hn by (destruct col; [done|cbn; lia]).
  pose proof (Qc_of_nat_pos _ Hn) as Hpos.
  destruct (varies_above_minimum col Hv) as (x & Hx & Hlt).
  assert (0 < Np.sum ((λ y, 1 * y + - Np.minimum col) <$> col)) as Hsum.
  { apply (sum_pos _ (1 * x + - Np.minimum col)).
    - apply Forall_fmap, Forall_forall. intros y Hy. cbn.
      rewrite Qcmult_1_l. by apply Qcle_minus, minimum_le.
    - apply list_elem_of_fmap. eauto.
    - rewrite Qcmult_1_l. by apply Qclt_minus. }
  rewrite sum_affine in Hsum.
  replace (Np.mean col - Np.minimum col)
    with ((1 * Np.sum col
           + Qc_of_Z (Z.of_nat (length col)) * - Np.minimum col)
          * / Qc_of_Z (Z.of_nat (length col))).
  - apply Qcmult_pos_pos; [done|by apply Qcinv_pos].
  - unfold Np.mean. field. by apply Qclt_not_eq in Hpos.
Qed.

Lemma mean_below_maximum (col : vector) :
  varies col → 0 < Np.maximum col - Np.mean col.
Proof.
  intros Hv. pose proof (varies_nonempty col Hv) as Hne.
  assert (1 ≤ length col)%nat as Hn by (destruct col; [done|cbn; lia]).
  pose proof (Qc_of_nat_pos _ Hn) as Hpos.
  destruct (varies_below_maximum col Hv) as (x & Hx & Hlt).
  assert (0 < Np.sum ((λ y, (- (1)) * y + Np.maximum col) <$> col)) as Hsum.
  { apply (sum_pos _ ((- (1)) * x + Np.maximum col)).
    - apply Forall_fmap, Forall_forall. intros y Hy. cbn.
      replace (- (1) * y + Np.maximum col) with (Np.maximum col - y) by ring.
      by apply Qcle_minus, maximum_ge.
    - apply list_elem_of_fmap. eauto.
    - replace (- (1) * x + Np.maximum col) with (Np.maximum col - x) by ring.
      by apply Qclt_minus. }
  rewrite sum_affine in Hsum.
  replace (Np.maximum col - Np.mean col)
    with ((- (1) * Np.sum col
           + Qc_of_Z (Z.of_nat (length col)) * Np.maximum col)
          * / Qc_of_Z (Z.of_nat (length col))).
  - apply Qcmult_pos_pos; [done|by apply Qcinv_pos].
  - unfold Np.mean. field. by apply Qclt_not_eq in Hpos.
Qed.

(** An entry of a column that varies, shifted by the mean and divided by
    the range, lies strictly between -1 and 1. *)
Lemma scaled_entry_small (col : vector) x :
  varies col → x ∈ col →
  let q := (x - Np.mean col) / (Np.maximum col - Np.minimum col) in
  -1 < q ∧ q < 1.
Proof.
  intros Hv Hx q. set (r := Np.maximum col - Np.minimum col) in *.
  pose proof (varies_range_pos col Hv) as Hr. fold r in Hr.
  assert (r ≠ 0) as Hr0 by (symmetry; by apply Qclt_not_eq).
  pose proof (Qcinv_pos _ Hr) as Hinv.
  pose proof (mean_above_minimum col Hv) as Hlo.
  pose proof (mean_below_maximum col Hv) as Hhi.
  split; apply Qclt_of_minus.
  - replace (q - -1)
      with (((x - Np.minimum col) + (Np.maximum col - Np.mean col)) * / r)
      by (subst q r; field; exact Hr0).
    apply Qcmult_pos_pos; [|done].
    apply Qcplus_nonneg_pos; [|done]. by apply Qcle_minus, minimum_le.
  - replace (1 - q)
      with (((Np.maximum col - x) + (Np.mean col - Np.minimum col)) * / r)
      by (subst q r; field; exact Hr0).
    apply Qcmult_pos_pos; [|done].
    apply Qcplus_nonneg_pos; [|done]. by apply Qcle_minus, maximum_ge.
Qed.

Lemma column_entry (m : matrix) (row : vector) i j :
  m !! i = Some row → default 0 (row !! j) ∈ column j m.
Proof.
  intros Hrow. unfold column. apply list_elem_of_fmap. exists row.
  split; [done|]. by eapply list_elem_of_lookup_2.
Qed.

(** The assignment of line 31 into an integer array without constant
    column cuts every entry to zero. *)
Lemma centered_rows_integer (m : matrix) :
  Forall (λ row : vector, length row = Np.ncols m) m →
  (∀ j, (j < Np.ncols m)%nat → varies (column j m)) →
  centered_rows Np.Int64 m = replicate (length m) (replicate (Np.ncols m) 0).
Proof.
  intros Hrect Hv. unfold centered_rows. apply const_fmap.
  intros i row Hrow.
  assert (length row = Np.ncols m) as Hr
    by (by eapply (Forall_lookup_1 _ _ _ _ Hrect)).
  rewrite mean_axis0_columns, range_axis0_columns.
  rewrite (vector_entries row _ Hr) at 1.
  rewrite scale_row_entries, <- list_fmap_compose.
  rewrite (const_fmap _ _ 0); [by rewrite length_seq|].
  intros j ? [-> Hj]%lookup_seq. cbn [Nat.add]. unfold compose.
  destruct (scaled_entry_small (column j m) (default 0 (row !! j)))
    as [Hlo Hhi]; [by apply Hv|by eapply column_entry|].
  by apply cast_integer_small.
Qed.

Lemma dot_zeros k (beta : vector) : Np.dot (replicate k 0) beta = 0.
Proof.
  revert beta. induction k as [|k IH]; intros [|b beta]; try done.
  cbn [replicate]. rewrite dot_cons, IH. ring.
Qed.

Lemma unscale_zeros (m_mean divisor : vector) k :
  length m_mean = k → length divisor = k →
  unscale_row m_mean divisor (replicate k 0) = m_mean.
Proof.
  intros <- Hd. unfold unscale_row. revert divisor Hd.
  induction m_mean as [|a m_mean IH]; intros [|b divisor] Hd; try done.
  cbn [length replicate zip_with]. rewrite IH by (cbn in Hd; lia).
  f_equal. ring.
Qed.

Lemma column_replicate j n (v : vector) :
  column j (replicate n v) = replicate n (default 0 (v !! j)).
Proof. unfold column. by rewrite fmap_replicate. Qed.

Lemma replicate_not_varies n (c : Qc) : ¬ varies (replicate n c).
Proof.
  intros (a & b & Ha%elem_of_replicate_inv & Hb%elem_of_replicate_inv & Hab).
  congruence.
Qed.

(** C8.  On an integer array with at least one row and no constant
    column [center] returns the mean and the range of each column, but the
    rows it leaves in the array are not [(row - mean) / range]: every
    entry is cut to zero by the assignment into the integer array, and the
    inverse affine map [scaled * range + mean] gives the row of means in
    every row, not the original array. *)
Theorem center_integer_array (E : Env) (l : loc) (m : matrix)
    (σ : state (Rng E)) :
  let zeros := replicate (length m) (replicate (Np.ncols m) 0) in
  heap σ !! l = Some (Array Np.Int64 m) → m ≠ [] →
  Forall (λ row : vector, length row = Np.ncols m) m →
  (1 ≤ Np.ncols m)%nat →
  (∀ j, (j < Np.ncols m)%nat → varies (column j m)) →
  center E l σ =
    Ok ((l, Np.mean_axis0 m, range_axis0 m),
        State (<[l := Array Np.Int64 zeros]> (heap σ)) (rng σ))
  ∧ zeros ≠ scale_row (Np.mean_axis0 m) (range_axis0 m) <$> m
  ∧ unscale_row (Np.mean_axis0 m) (range_axis0 m) <$> zeros
    = replicate (length m) (Np.mean_axis0 m)
  ∧ unscale_row (Np.mean_axis0 m) (range_axis0 m) <$> zeros ≠ m.
Proof.
  intros zeros Hl Hne Hrect Hcols Hv.
  assert (unscale_row (Np.mean_axis0 m) (range_axis0 m) <$> zeros
          = replicate (length m) (Np.mean_axis0 m)) as Hback.
  { subst zeros. rewrite fmap_replicate. f_equal.
    apply unscale_zeros; [apply length_mean_axis0|apply length_range_axis0]. }
  assert (unscale_row (Np.mean_axis0 m) (range_axis0 m) <$> zeros ≠ m)
    as Hdiff.
  { rewrite Hback. intros Heq.
    apply (replicate_not_varies (length m)
             (default 0 (Np.mean_axis0 m !! 0%nat))).
    rewrite <- column_replicate, Heq. apply Hv. lia. }
  split; [|split; [|by split]].
  - rewrite (center_spec E l Np.Int64 m) by done.
    by rewrite centered_rows_integer.
  - intros Heq. apply Hdiff. rewrite Heq, <- list_fmap_compose.
    transitivity (id <$> m); [|apply list_fmap_id].
    apply list_fmap_ext. intros i row Hrow. cbn.
    assert (length row = Np.ncols m) as Hr
      by (by eapply (Forall_lookup_1 _ _ _ _ Hrect)).
    apply unscale_scale_row.
    + by rewrite length_mean_axis0.
    + by rewrite length_range_axis0.
    + by apply range_axis0_nonzero.
Qed.

Lemma center_integer_array_witness :
  let zeros := replicate (length sample_matrix)
                 (replicate (Np.ncols sample_matrix) 0) in
  center probe 0%nat sample_integer_state =
    Ok ((0%nat, Np.mean_axis0 sample_matrix, range_axis0 sample_matrix),
        State (<[0%nat := Array Np.Int64 zeros]> (heap sample_integer_state))
          (rng sample_integer_state))
  ∧ zeros ≠ scale_row (Np.mean_axis0 sample_matrix)
              (range_axis0 sample_matrix) <$> sample_matrix
  ∧ unscale_row (Np.mean_axis0 sample_matrix) (range_axis0 sample_matrix)
      <$> zeros
    = replicate (length sample_matrix) (Np.mean_axis0 sample_matrix)
  ∧ unscale_row (Np.mean_axis0 sample_matrix) (range_axis0 sample_matrix)
      <$> zeros ≠ sample_matrix.
Proof.
  apply (center_integer_array probe 0%nat sample_matrix
           sample_integer_state).
  - reflexivity.
  - discriminate.
  - repeat constructor.
  - cbn. lia.
  - exact sample_matrix_varies.
Defined.

Example center_integer_sample :
  center probe 0%nat sample_integer_state =
  Ok ((0%nat, [Q2Qc (3 # 2); qz 4], [qz 1; qz 2]),
      State [Array Np.Int64 [[qz 0; qz 0]; [qz 0; qz 0]]] tt).
Proof.
  rewrite (center_spec probe 0%nat Np.Int64 sample_matrix);
    [|reflexivity|discriminate|repeat constructor].
  cbn [heap rng sample_integer_state insert list_insert].
  repeat f_equal; apply (bool_decide_unpack _); vm_compute; exact I.
Qed.

(** C2.  With [fit_intercept] set and integer train features whose model
    matrix has no constant column, the array [center] leaves for the fit
    and for the train prediction is all zeros: every train prediction is
    the mean of the train targets whatever [beta] is, not the rescaled row
    times [beta] plus that mean.  The test rows are rescaled into a new
    float array with the mean and range of the train matrix, as line 155
    says. *)
Theorem fit_intercept_integer_train
    (E : Env) (type : tag) (params : gmap string value)
    (train_data test_data : data) (n n' : nat) (z : Z)
    (σ σ2 : state (Rng E)) (beta : vector) :
  let X := design_matrix (inputs train_data) n z in
  let zeros := replicate n (replicate (Np.ncols X) 0) in
  let intercept := Np.mean (targets train_data) in
  inputs_dtype train_data = Np.Int64 →
  (∃ v, params !! "fit_intercept"%string = Some v ∧ truthy v = true) →
  Forall (λ x : vector, length x = n) (inputs train_data) →
  (2 ≤ length (inputs train_data))%nat → (1 ≤ n)%nat → (1 ≤ z)%Z →
  (∀ j, (j < Np.ncols X)%nat → varies (column j X)) →
  get_beta E type zeros (targets train_data) params
    (State (heap σ ++ [Array Np.Int64 zeros]) (rng σ)) = Ok (beta, σ2) →
  length beta = Np.ncols X →
  Forall (λ x : vector, length x = n') (inputs test_data) →
  length (inputs test_data) = length (inputs train_data) →
  regressor E type params train_data test_data (PyInt z) σ =
  Ok ((replicate n intercept,
       predict_row (Np.mean_axis0 X) (range_axis0 X) beta intercept <$>
         design_matrix (inputs test_data) n' z), σ2).
Proof.
  intros X zeros intercept Hint Hfit Hlengths Hfeatures Hn Hz Hv Hbeta Hlen
    Htest Hsame.
  assert (length X = n) as HXn.
  { subst X. unfold design_matrix. apply model_matrix_length; lia. }
  assert (centered_rows (inputs_dtype train_data) X = zeros) as Hc.
  { rewrite Hint, centered_rows_integer, HXn; [done| |done].
    by apply train_matrix_rectangular. }
  destruct (regressor_fit_intercept_features E type params train_data n z
              σ σ2 beta Hfit Hlengths Hfeatures Hn Hz) with test_data n'
    as [_ Hr]; try done.
  { fold X. rewrite Hc, Hint. exact Hbeta. }
  rewrite Hr. fold X intercept. rewrite Hc. subst zeros.
  by rewrite fmap_replicate, dot_zeros, Qcplus_0_l.
Qed.

Lemma fit_intercept_integer_train_witness :
  let X := design_matrix (inputs sample_integer_data) 3 1 in
  let params := <["alpha"%string := PyInt 0]> (sample_parameters true) in
  let claimed :=
    predict_row (Np.mean_axis0 X) (range_axis0 X) [1; 1] (qz 2) <$> X in
  regressor probe (Member LASSO) params sample_integer_data
    sample_integer_data (PyInt 1) probe_state =
  Ok ((replicate 3 (Np.mean (targets sample_integer_data)),
       predict_row (Np.mean_axis0 X) (range_axis0 X) [1; 1]
         (Np.mean (targets sample_integer_data)) <$> X),
      State [Array Np.Int64 (replicate 3 (replicate (Np.ncols X) 0))] tt)
  ∧ replicate 3 (Np.mean (targets sample_integer_data)) = [qz 2; qz 2; qz 2]
  ∧ claimed = [Q2Qc (19 # 18); Q2Qc (43 # 18); Q2Qc (23 # 9)]
  ∧ replicate 3 (Np.mean (targets sample_integer_data)) ≠ claimed.
Proof.
  intros X params claimed. split; [|split; [|split]].
  - apply (fit_intercept_integer_train probe (Member LASSO) params
             sample_integer_data sample_integer_data 3 3 1 probe_state
             (State [Array Np.Int64 (replicate 3 (replicate (Np.ncols X) 0))]
                tt) [1; 1]).
    + reflexivity.
    + exists (PyBool true). split; reflexivity.
    + repeat constructor.
    + cbn. lia.
    + lia.
    + lia.
    + exact sample_design_varies.
    + vm_compute. reflexivity.
    + vm_compute. reflexivity.
    + repeat constructor.
    + reflexivity.
  - apply (bool_decide_unpack _). vm_compute. exact I.
  - apply (bool_decide_unpack _). vm_compute. exact I.
  - apply (bool_decide_unpack _). vm_compute. exact I.
Defined.
